(** * Lyra: batch_push.py

    A shallow embedding of [batch_push.py], the script that lists the
    pending changes of a git working tree, cuts the list into batches of
    [BATCH_SIZE] paths and stages, commits and pushes each batch in turn.

    Layout of the development:
    - [Py]       the pieces of the Python runtime the script relies on
                 (bytes, str, slices, [bytes.split], the UTF-8 decoder);
    - [Runtime]  the world the script acts on (files, console and
                 subprocesses) and a state-and-exception monad over it;
    - [Script]   the script itself: [run_git_command],
                 [get_changed_files] and [main];
    - the vocabulary of the properties, and scripted programs to run the
      script on;
    - the properties: of the runtime model, of the enumeration, of the
      partition, of a run, and the statements C1 to C10.

    What the model leaves out: file operations that fail (the path-list
    file can always be written and removed), a [git] executable that is
    missing or never returns, command lines that the interpreter refuses
    before it starts any program (an empty one, an argument that holds a
    null character or cannot be encoded), and signals. *)

From Stdlib Require Import ZArith Lia Strings.Byte Ascii String DecimalString DecimalZ.
From stdpp Require Import base list gmap strings numbers.

Local Open Scope Z_scope.

(* ===================================================================== *)
(** ** The Python values the script manipulates *)
(* ===================================================================== *)

Module Py.

(** [bytes]: an immutable sequence of octets. *)
Definition bytes := list byte.

#[global] Instance byte_eq_dec : EqDecision byte := Byte.byte_eq_dec.

(** [str]: an immutable sequence of Unicode code points. *)
Definition char := N.
Definition str := list char.

(** A literal of the source whose characters are all below U+0100. *)
Fixpoint lit (s : string) : str :=
  match s with
  | EmptyString => []
  | String a s' => N_of_ascii a :: lit s'
  end.

(** The line feed, U+000A, which the source writes as a backslash and
    an n inside a literal. *)
Definition newline : str := [10%N].

(** A [bytes] literal of the source. *)
Definition blit (s : string) : bytes := list_byte_of_string s.

(** Truthiness of a sequence: [if x:] holds when [x] is not empty. *)
Definition truthy {A} (l : list A) : bool :=
  match l with [] => false | _ :: _ => true end.

(** [len(l)], an unbounded integer. *)
Definition len {A} (l : list A) : Z := Z.of_nat (length l).

(** [str(n)] for an integer, as f-strings render it. *)
Definition str_of_int (n : Z) : str := lit (NilZero.string_of_int (Z.to_int n)).

(** One bound of a slice: negative bounds count from the end, and the
    result is clamped to [0, len]. *)
Definition slice_bound (n i : Z) : nat :=
  Z.to_nat (Z.min n (Z.max 0 (if i <? 0 then i + n else i))).

(** [l[start:stop]]. *)
Definition slice {A} (l : list A) (start stop : Z) : list A :=
  let lo := slice_bound (len l) start in
  let hi := slice_bound (len l) stop in
  take (hi - lo) (drop lo l).

(** [l[start:]]. *)
Definition slice_from {A} (l : list A) (start : Z) : list A :=
  drop (slice_bound (len l) start) l.

(** [range(n)]. *)
Definition range (n : Z) : list Z := seqZ 0 n.

(** [data.split(sep)] for a one-byte separator: the pieces between the
    separators, empty pieces included, so that a sequence holding [k]
    separators yields [k + 1] pieces. *)
Fixpoint split (sep : byte) (data : bytes) : list bytes :=
  match data with
  | [] => [[]]
  | b :: data' =>
      if Byte.eqb b sep then [] :: split sep data'
      else match split sep data' with
           | piece :: pieces => (b :: piece) :: pieces
           | [] => [[b]]
           end
  end.

(** [sep.join(pieces)]. *)
Fixpoint join (sep : byte) (pieces : list bytes) : bytes :=
  match pieces with
  | [] => []
  | [piece] => piece
  | piece :: pieces' => piece ++ sep :: join sep pieces'
  end.

(** *** [bytes.decode('utf-8', errors='ignore')]

    A well-formed sequence (Unicode table 3-7: no overlong form, no
    surrogate, nothing above U+10FFFF) yields its code point.  Anywhere
    else the handler [ignore] drops the offending bytes: a lead byte
    and the continuation bytes accepted so far; as a continuation byte
    is never the start of a sequence, dropping one byte at a time gives
    the same text. *)
Definition in_range (lo hi c : N) : bool := ((lo <=? c) && (c <=? hi))%N.
Definition is_cont (c : N) : bool := in_range 0x80 0xBF c.

Definition two_ok (c0 c1 : N) : bool := in_range 0xC2 0xDF c0 && is_cont c1.

Definition second_ok3 (c0 c1 : N) : bool :=
  if (c0 =? 0xE0)%N then in_range 0xA0 0xBF c1
  else if (c0 =? 0xED)%N then in_range 0x80 0x9F c1
  else is_cont c1.

Definition three_ok (c0 c1 c2 : N) : bool :=
  in_range 0xE0 0xEF c0 && second_ok3 c0 c1 && is_cont c2.

Definition second_ok4 (c0 c1 : N) : bool :=
  if (c0 =? 0xF0)%N then in_range 0x90 0xBF c1
  else if (c0 =? 0xF4)%N then in_range 0x80 0x8F c1
  else is_cont c1.

Definition four_ok (c0 c1 c2 c3 : N) : bool :=
  in_range 0xF0 0xF4 c0 && second_ok4 c0 c1 && is_cont c2 && is_cont c3.

Definition low6 (c : N) : N := N.land c 0x3F.

Definition cp2 (c0 c1 : N) : N := (N.land c0 0x1F * 64 + low6 c1)%N.
Definition cp3 (c0 c1 c2 : N) : N :=
  (N.land c0 0x0F * 4096 + low6 c1 * 64 + low6 c2)%N.
Definition cp4 (c0 c1 c2 c3 : N) : N :=
  (N.land c0 0x07 * 262144 + low6 c1 * 4096 + low6 c2 * 64 + low6 c3)%N.

Fixpoint utf8_decode_ignore (data : bytes) : str :=
  match data with
  | [] => []
  | b0 :: rest =>
      let c0 := Byte.to_N b0 in
      if (c0 <? 0x80)%N then c0 :: utf8_decode_ignore rest
      else
        match rest with
        | [] => []
        | b1 :: rest1 =>
            let c1 := Byte.to_N b1 in
            if two_ok c0 c1 then cp2 c0 c1 :: utf8_decode_ignore rest1
            else
              match rest1 with
              | [] => utf8_decode_ignore rest
              | b2 :: rest2 =>
                  let c2 := Byte.to_N b2 in
                  if three_ok c0 c1 c2
                  then cp3 c0 c1 c2 :: utf8_decode_ignore rest2
                  else
                    match rest2 with
                    | [] => utf8_decode_ignore rest
                    | b3 :: rest3 =>
                        let c3 := Byte.to_N b3 in
                        if four_ok c0 c1 c2 c3
                        then cp4 c0 c1 c2 c3 :: utf8_decode_ignore rest3
                        else utf8_decode_ignore rest
                    end
              end
        end
  end.

End Py.

Import Py.


(* ===================================================================== *)
(** ** The world the script acts on *)
(* ===================================================================== *)

Module Runtime.

(** What [subprocess.run] hands back, a [CompletedProcess]. *)
Record completed := Completed {
  returncode : Z;
  stdout : bytes;
  stderr : bytes
}.

(** The exceptions the script can meet: [subprocess.run(..., check=True)]
    raises [CalledProcessError] on a non-zero exit status, [//] raises
    [ZeroDivisionError] on a zero divisor. *)
Inductive exn :=
| CalledProcessError (rc : Z) (cmd : list str) (err : bytes)
| ZeroDivisionError.

Definition is_CalledProcessError (e : exn) : bool :=
  match e with CalledProcessError _ _ _ => true | _ => false end.

(** [except Exception]: both are subclasses of [Exception]. *)
Definition is_Exception (e : exn) : bool := true.

Definition exn_stderr (e : exn) : bytes :=
  match e with CalledProcessError _ _ err => err | _ => [] end.

(** The lines the script prints, one constructor per [print] of the
    source, carrying the values interpolated in it. *)
Inductive message :=
| MsgCommandFailed (args : list str)          (* run_git_command, 1st print *)
| MsgErrorInfo (text : str)                   (* run_git_command, 2nd print *)
| MsgListing                                  (* main: fetching the list *)
| MsgNoFiles                                  (* main: nothing to commit *)
| MsgFound (total_files : Z)                  (* main: N files found *)
| MsgProgress (ordinal num_batches size : Z)  (* loop: progress i+1/T *)
| MsgPushing (ordinal : Z)                    (* loop: pushing batch i+1 *)
| MsgPushFailed (ordinal : Z)                 (* loop: push of i+1 failed *)
| MsgNetworkAdvice                            (* loop: check the network *)
| MsgCommitKept                               (* loop: commits can be pushed later *)
| MsgException (e : exn)                      (* loop: except Exception *)
| MsgFinished.                                (* main: script finished *)

(** What an observer of a run sees, in order. *)
Inductive event :=
| EPrint (m : message)
| ERun (args : list str) (rc : Z)
| EWrite (path content : str)
| ERemove (path : str).

(** Regular files by name, and the history of the run so far. *)
Record world := World {
  fs : gmap str str;
  trace : list event
}.

(** An external program: from the world it is started in and its argument
    vector to its [CompletedProcess] and the files it leaves behind. *)
Definition program := world → list str → completed * gmap str str.

(** Computations that read and change the world and may raise. *)
Inductive result (A : Type) :=
| Ok (a : A)
| Raise (e : exn).
Arguments Ok {A} a.
Arguments Raise {A} e.

Definition M (A : Type) : Type := world → result A * world.

#[global] Instance M_ret : MRet M := λ A a w, (Ok a, w).

#[global] Instance M_bind : MBind M := λ A B f m w,
  match m w with
  | (Ok a, w') => f a w'
  | (Raise e, w') => (Raise e, w')
  end.

Definition raise {A} (e : exn) : M A := λ w, (Raise e, w).

(** [try: body except C as e: handler e], where [catches] tells the
    exceptions of class [C]. *)
Definition try_except {A} (body : M A) (catches : exn → bool)
    (handler : exn → M A) : M A := λ w,
  match body w with
  | (Raise e, w') => if catches e then handler e w' else (Raise e, w')
  | ok => ok
  end.

(** [try: body finally: final]: [final] runs however [body] ends; an
    exception of [final] replaces the outcome of [body]. *)
Definition try_finally {A} (body : M A) (final : M unit) : M A := λ w,
  let '(r, w1) := body w in
  match final w1 with
  | (Ok _, w2) => (r, w2)
  | (Raise e, w2) => (Raise e, w2)
  end.

(** How the body of a [for] loop ends: by reaching its end or by [break]. *)
Inductive flow := Fallthrough | Break.

(** [for x in xs: body x]. *)
Fixpoint for_each {A} (xs : list A) (body : A → M flow) : M unit :=
  match xs with
  | [] => mret tt
  | x :: xs' =>
      f ← body x;
      match f with
      | Break => mret tt
      | Fallthrough => for_each xs' body
      end
  end.

(** [print(...)]. *)
Definition print (m : message) : M unit := λ w,
  (Ok tt, World (fs w) (trace w ++ [EPrint m])).

(** [a // b] on integers. *)
Definition floordiv (a b : Z) : M Z :=
  if b =? 0 then raise ZeroDivisionError else mret (a / b).

(** The text a [with open(path, "w") as f] block leaves in the file when
    its body is [for line in lines: f.write(line)]: the writes extend the
    text of the file one after the other. *)
Definition written (lines : list str) : str :=
  fold_left (λ text line, text ++ line) lines [].

(** [with open(path, "w", encoding="utf-8") as f: for line in lines:
    f.write(line)]: the file is created or truncated, and holds the
    written text when the block is left. *)
Definition write_file (path : str) (lines : list str) : M unit := λ w,
  let content := written lines in
  (Ok tt, World (<[path := content]> (fs w)) (trace w ++ [EWrite path content])).

(** [os.path.exists(path)]. *)
Definition os_path_exists (path : str) : M bool := λ w,
  (Ok (bool_decide (is_Some (fs w !! path))), w).

(** [os.remove(path)], of a file that exists. *)
Definition os_remove (path : str) : M unit := λ w,
  (Ok tt, World (delete path (fs w)) (trace w ++ [ERemove path])).

(** [subprocess.run(args, check=check)], for a command line the
    interpreter accepts (not empty, its arguments free of null
    characters and encodable; it raises [IndexError], [ValueError] or
    [UnicodeEncodeError] otherwise, without starting anything): the
    program runs to completion before the call returns; with [check], a
    non-zero exit status is raised as [CalledProcessError].  The
    exception carries what the program wrote on its standard error,
    which is what [e.stderr] holds when the output is captured, as in
    [run_git_command]; the text of the exception, which is all the
    handler of [main] prints, does not show it. *)
Definition subprocess_run (tool : program) (args : list str) (check : bool)
    : M completed := λ w,
  let '(cp, files) := tool w args in
  let w' := World files (trace w ++ [ERun args (returncode cp)]) in
  if check && negb (returncode cp =? 0)
  then (Raise (CalledProcessError (returncode cp) args (stderr cp)), w')
  else (Ok cp, w').

(** How the interpreter exits after running a computation as the script:
    status 0 when it returns, a traceback and status 1 when an exception
    reaches the top level. *)
Inductive exit_status :=
| ExitSuccess
| ExitUnhandled (e : exn).

Definition exit_of {A} (r : result A) : exit_status :=
  match r with Ok _ => ExitSuccess | Raise e => ExitUnhandled e end.

End Runtime.

Import Runtime.

(* ===================================================================== *)
(** ** batch_push.py *)
(* ===================================================================== *)

(** The two module-level constants. *)
Record config := Config {
  BATCH_SIZE : Z;
  COMMIT_MSG_PREFIX : str
}.

Definition default_config : config :=
  {| BATCH_SIZE := 500; COMMIT_MSG_PREFIX := lit "Auto-batch commit: Part" |}.

Definition list_file : str := lit "temp_batch_list.txt".

Definition status_args : list str :=
  [lit "git"; lit "status"; lit "--porcelain"; lit "-z"].
Definition add_args : list str :=
  [lit "git"; lit "add"; lit "--pathspec-from-file=" ++ list_file].
Definition commit_args (msg : str) : list str :=
  [lit "git"; lit "commit"; lit "-m"; msg].
Definition push_args : list str := [lit "git"; lit "push"].

Section Script.

Context (cfg : config).
(** [bytes.decode('utf-8', errors='ignore')] of the interpreter. *)
Context (decode : bytes → str).
(** The [git] executable found on the path. *)
Context (git : program).

Definition run_git_command (args : list str) : M (option bytes) :=
  try_except
    (result ← subprocess_run git args true;
     mret (Some (stdout result)))
    is_CalledProcessError
    (λ e,
       print (MsgCommandFailed args);;
       print (MsgErrorInfo (decode (exn_stderr e)));;
       mret None).

(** One turn of the loop [for entry in entries] of [get_changed_files],
    from the list [files] before the turn to the list after it. *)
Definition scan_entry (files : list str) (entry : bytes) : list str :=
  if negb (truthy entry) then files
  else
    let file_path := decode (slice_from entry 3) in
    if truthy file_path then files ++ [file_path] else files.

Definition scan_entries (entries : list bytes) : list str :=
  fold_left scan_entry entries [].

Definition get_changed_files : M (list str) :=
  stdout ← run_git_command status_args;
  match stdout with
  | None => mret []
  | Some out =>
      if negb (truthy out) then mret []
      else mret (scan_entries (split "000" out))
  end.

(** [f"{COMMIT_MSG_PREFIX} {i+1} of {num_batches}"]. *)
Definition commit_message (i num_batches : Z) : str :=
  COMMIT_MSG_PREFIX cfg ++ lit " " ++ str_of_int (i + 1)
    ++ lit " of " ++ str_of_int num_batches.

(** [all_files[start_index:end_index]] of turn [i]. *)
Definition batch_files (all_files : list str) (i : Z) : list str :=
  let total_files := len all_files in
  let start_index := i * BATCH_SIZE cfg in
  let end_index := Z.min (start_index + BATCH_SIZE cfg) total_files in
  slice all_files start_index end_index.

(** The [finally] clause. *)
Definition cleanup : M unit :=
  present ← os_path_exists list_file;
  if present : bool then os_remove list_file else mret tt.

(** The [try] block of turn [i]. *)
Definition attempt (batch : list str) (i num_batches : Z) : M flow :=
  write_file list_file (map (λ path, path ++ newline) batch);;
  subprocess_run git add_args true;;
  let msg := commit_message i num_batches in
  subprocess_run git (commit_args msg) true;;
  print (MsgPushing (i + 1));;
  push_res ← subprocess_run git push_args false;
  if negb (returncode push_res =? 0) then
    print (MsgPushFailed (i + 1));;
    print MsgNetworkAdvice;;
    print MsgCommitKept;;
    mret Break
  else mret Fallthrough.

(** The body of [for i in range(num_batches)]. *)
Definition process_batch (all_files : list str) (num_batches i : Z) : M flow :=
  let batch := batch_files all_files i in
  print (MsgProgress (i + 1) num_batches (len batch));;
  try_finally
    (try_except
       (attempt batch i num_batches)
       is_Exception
       (λ e, print (MsgException e);; mret Break))
    cleanup.

Definition main : M unit :=
  print MsgListing;;
  all_files ← get_changed_files;
  let total_files := len all_files in
  if total_files =? 0 then
    print MsgNoFiles
  else
    print (MsgFound total_files);;
    num_batches ← floordiv (total_files + BATCH_SIZE cfg - 1) (BATCH_SIZE cfg);
    for_each (range num_batches) (process_batch all_files num_batches);;
    print MsgFinished.

(** [if __name__ == "__main__": main()], from a world to the exit status
    of the interpreter and the world left behind. *)
Definition script (w : world) : exit_status * world :=
  let '(r, w') := main w in (exit_of r, w').

End Script.

(* ===================================================================== *)
(** ** The vocabulary of the properties *)
(* ===================================================================== *)

(** *** Enumerating the changes, as the specification words it

    Split the output on null bytes, skip the empty records, drop the
    three bytes of the status prefix of each record, decode the rest as
    the path, skip the records whose path is empty, keep the order. *)
Definition changed_paths_spec (decode : bytes → str) (out : bytes) : list str :=
  filter (λ path, path ≠ [])
    (map (λ record, decode (drop 3 record))
       (filter (λ record, record ≠ []) (split "000" out))).

(** *** The partition the loop of [main] walks through *)

(** The value [main] gives [num_batches] when the division succeeds. *)
Definition num_batches (cfg : config) (total_files : Z) : Z :=
  (total_files + BATCH_SIZE cfg - 1) / BATCH_SIZE cfg.

(** The batches of all the turns, in the order of the turns. *)
Definition batches (cfg : config) (all_files : list str) : list (list str) :=
  map (batch_files cfg all_files) (range (num_batches cfg (len all_files))).

(** The text of the path-list file of a batch. *)
Definition file_text (batch : list str) : str :=
  written (map (λ path, path ++ newline) batch).

(** *** Projections of a trace *)

(** The subprocesses of a trace with their exit statuses, in order. *)
Fixpoint commands (tr : list event) : list (list str * Z) :=
  match tr with
  | [] => []
  | ERun args rc :: tr' => (args, rc) :: commands tr'
  | _ :: tr' => commands tr'
  end.

(** The file writes and the subprocesses of a trace, in order. *)
Fixpoint actions (tr : list event) : list event :=
  match tr with
  | [] => []
  | ERun args rc :: tr' => ERun args rc :: actions tr'
  | EWrite path content :: tr' => EWrite path content :: actions tr'
  | _ :: tr' => actions tr'
  end.

(** The exit statuses of the pushes of a list of commands, in order. *)
Definition push_codes (cmds : list (list str * Z)) : list Z :=
  map snd (filter (λ c, c.1 = push_args) cmds).

(** *** One turn of the loop, seen from outside *)

(** How a turn went: which command failed first, if any, with its exit
    status (and what it wrote on its standard error, which the exception
    carries). *)
Inductive outcome :=
| AddFailed (rc : Z) (err : bytes)
| CommitFailed (rc : Z) (err : bytes)
| PushFailed (rc : Z)
| Pushed.

(** The exit status of a command that failed is not zero. *)
Definition genuine (o : outcome) : Prop :=
  match o with
  | AddFailed rc _ | CommitFailed rc _ | PushFailed rc => rc ≠ 0
  | Pushed => True
  end.

Definition stops (o : outcome) : Prop := o ≠ Pushed.

#[global] Instance outcome_eq_dec : EqDecision outcome.
Proof. solve_decision. Defined.

Definition flow_of (o : outcome) : flow :=
  match o with Pushed => Fallthrough | _ => Break end.

Section Turn.

Context (cfg : config) (all_files : list str) (total : Z).

(** The commands of turn [i]. *)
Definition turn_commands (i : Z) (o : outcome) : list (list str * Z) :=
  let commit := commit_args (commit_message cfg i total) in
  match o with
  | AddFailed rc _ => [(add_args, rc)]
  | CommitFailed rc _ => [(add_args, 0); (commit, rc)]
  | PushFailed rc => [(add_args, 0); (commit, 0); (push_args, rc)]
  | Pushed => [(add_args, 0); (commit, 0); (push_args, 0)]
  end.

(** The exception the [try] block of turn [i] raises, if it raises. *)
Definition raised (i : Z) (o : outcome) : option exn :=
  match o with
  | AddFailed rc err => Some (CalledProcessError rc add_args err)
  | CommitFailed rc err =>
      Some (CalledProcessError rc
              (commit_args (commit_message cfg i total)) err)
  | PushFailed _ | Pushed => None
  end.

(** What follows the write of the path-list file in the [try] block and
    its handler. *)
Definition turn_steps (i : Z) (o : outcome) : list event :=
  let commit := commit_args (commit_message cfg i total) in
  match o with
  | AddFailed rc err =>
      [ERun add_args rc;
       EPrint (MsgException (CalledProcessError rc add_args err))]
  | CommitFailed rc err =>
      [ERun add_args 0; ERun commit rc;
       EPrint (MsgException (CalledProcessError rc commit err))]
  | PushFailed rc =>
      [ERun add_args 0; ERun commit 0; EPrint (MsgPushing (i + 1));
       ERun push_args rc;
       EPrint (MsgPushFailed (i + 1)); EPrint MsgNetworkAdvice;
       EPrint MsgCommitKept]
  | Pushed =>
      [ERun add_args 0; ERun commit 0; EPrint (MsgPushing (i + 1));
       ERun push_args 0]
  end.

(** All the events of turn [i]; [removed] tells whether the path-list
    file was still there when the [finally] clause looked for it. *)
Definition turn_events (i : Z) (o : outcome) (removed : bool) : list event :=
  let batch := batch_files cfg all_files i in
  [EPrint (MsgProgress (i + 1) total (len batch));
   EWrite list_file (file_text batch)]
  ++ turn_steps i o
  ++ (if removed then [ERemove list_file] else []).

(** The writes and commands of turn [i]. *)
Definition turn_actions (i : Z) (o : outcome) : list event :=
  EWrite list_file (file_text (batch_files cfg all_files i))
  :: map (λ c, ERun c.1 c.2) (turn_commands i o).

(** The events of the loop over the turns [turns]: [done] pushed turns
    one after the other, until the turns are exhausted or a turn, of
    outcome [last], stops the loop. *)
Inductive loop_trace : list Z → nat → option outcome → list event → Prop :=
| loop_exhausted :
    loop_trace [] 0 None []
| loop_next i turns removed done last evs :
    loop_trace turns done last evs →
    loop_trace (i :: turns) (S done) last
      (turn_events i Pushed removed ++ evs)
| loop_stopped i turns o removed :
    genuine o → stops o →
    loop_trace (i :: turns) 0 (Some o) (turn_events i o removed).

(** The commands of such a loop. *)
Definition loop_commands (turns : list Z) (done : nat) (last : option outcome)
    : list (list str * Z) :=
  flat_map (λ i, turn_commands i Pushed) (take done turns)
  ++ match last, turns !! done with
     | Some o, Some i => turn_commands i o
     | _, _ => []
     end.

(** The writes and commands of such a loop. *)
Definition loop_actions (turns : list Z) (done : nat) (last : option outcome)
    : list event :=
  flat_map (λ i, turn_actions i Pushed) (take done turns)
  ++ match last, turns !! done with
     | Some o, Some i => turn_actions i o
     | _, _ => []
     end.

End Turn.

(** *** A run of the script *)

(** The world in which [main] calls [get_changed_files]. *)
Definition listing_world (w : world) : world :=
  World (fs w) (trace w ++ [EPrint MsgListing]).

(** The list [main] binds [all_files] to. *)
Definition listed (decode : bytes → str) (git : program) (w : world)
    : list str :=
  match get_changed_files decode git (listing_world w) with
  | (Ok all_files, _) => all_files
  | (Raise _, _) => []
  end.

(** *** Scripted programs, to run the script on *)

(** The subcommand of a git command line. *)
Definition subcommand (args : list str) : str := default [] (args !! 1%nat).

(** How many times a subcommand was run in a trace. *)
Fixpoint calls (sub : str) (tr : list event) : nat :=
  match tr with
  | [] => 0
  | ERun args _ :: tr' =>
      if bool_decide (subcommand args = sub) then S (calls sub tr')
      else calls sub tr'
  | _ :: tr' => calls sub tr'
  end.

(** A git that prints [out] for [status], and exits from the [n]-th run
    (from 0) of subcommand [sub] with status [rc sub n]; it leaves the
    files alone. *)
Definition scripted_git (out : bytes) (rc : str → nat → Z) : program :=
  λ w args,
    let sub := subcommand args in
    (Completed (rc sub (calls sub (trace w)))
               (if bool_decide (sub = lit "status") then out else [])
               (blit "fatal: failed"),
     fs w).

Definition always_ok : str → nat → Z := λ _ _, 0.

(** Run [k] of subcommand [sub] exits with [code], every other run
    with 0. *)
Definition fails_at (sub : string) (k : nat) (code : Z) : str → nat → Z :=
  λ s n, if bool_decide (s = lit sub) && (n =? k)%nat then code else 0.

(** The status output for untracked files of the given names. *)
Fixpoint porcelain (paths : list string) : bytes :=
  match paths with
  | [] => []
  | p :: ps => blit "?? " ++ blit p ++ ["000"%byte] ++ porcelain ps
  end.

(** Batches of two paths. *)
Definition pairs_config : config :=
  {| BATCH_SIZE := 2; COMMIT_MSG_PREFIX := lit "Auto-batch commit: Part" |}.

(** A world with no file and no history. *)
Definition fresh : world := World ∅ [].

(** Five untracked files. *)
Definition five_files : bytes := porcelain ["a"; "b"; "c"; "d"; "e"].

(** The paths it lists. *)
Definition five_paths : list str :=
  [lit "a"; lit "b"; lit "c"; lit "d"; lit "e"].

(** [n] entries for a file named f, and the paths they list. *)
Definition many_status (n : nat) : bytes := porcelain (replicate n "f"%string).
Definition many_paths (n : nat) : list str := replicate n (lit "f").
(** *** More projections of a trace *)

(** The texts written to files in a trace, in order. *)
Fixpoint writes (tr : list event) : list str :=
  match tr with
  | [] => []
  | EWrite _ text :: tr' => text :: writes tr'
  | _ :: tr' => writes tr'
  end.

(** The lines printed in a trace, in order: what the console shows. *)
Fixpoint printed (tr : list event) : list message :=
  match tr with
  | [] => []
  | EPrint m :: tr' => m :: printed tr'
  | _ :: tr' => printed tr'
  end.

(** A list of commands is in step when every commit comes right after a
    staging that exited with 0, and every push right after a commit that
    exited with 0. *)
Definition in_step (cmds : list (list str * Z)) : Prop :=
  ∀ (n : nat) (c : list str * Z),
    cmds !! S n = Some c →
    (subcommand c.1 = lit "commit" → cmds !! n = Some (add_args, 0))
    ∧ (subcommand c.1 = lit "push" →
       ∃ msg, cmds !! n = Some (commit_args msg, 0)).

(** A list of commands that does not start with a commit or a push. *)
Definition starts_clean (cmds : list (list str * Z)) : Prop :=
  ∀ c, head cmds = Some c →
       subcommand c.1 ≠ lit "commit" ∧ subcommand c.1 ≠ lit "push".

(** *** Command lines *)



(** How many commands of subcommand [sub] there are in a list of
    commands, and how many of them exited with status 0. *)
Definition attempted (sub : str) (cmds : list (list str * Z)) : nat :=
  length (filter (λ c, subcommand c.1 = sub) cmds).

Definition succeeded (sub : str) (cmds : list (list str * Z)) : nat :=
  length (filter (λ c, subcommand c.1 = sub ∧ c.2 = 0) cmds).

(** *** Status outputs *)

(** The null byte that ends a record of [git status -z]. *)
Definition NUL : byte := "000"%byte.

(** A status output: each record followed by a null byte. *)
Definition terminated (records : list bytes) : bytes :=
  concat (map (λ record, record ++ [NUL]) records).

(** A name made of ASCII characters other than the null character. *)
Definition plain_char (a : ascii) : bool :=
  let c := N_of_ascii a in ((0 <? c) && (c <? 128))%N.

Fixpoint plain (name : string) : bool :=
  match name with
  | EmptyString => true
  | String a name' => plain_char a && plain name'
  end.

(** A byte that is no part of any text in UTF-8 on its own: a
    continuation byte, or a byte that no sequence starts with. *)
Definition never_starts (b : byte) : bool :=
  let c := Byte.to_N b in in_range 0x80 0xC1 c || in_range 0xF5 0xFF c.

(** *** More scripted runs *)

(** A batch size of zero. *)
Definition zero_config : config :=
  {| BATCH_SIZE := 0; COMMIT_MSG_PREFIX := lit "Auto-batch commit: Part" |}.

(** The two records git prints for a file renamed from old.txt to new:
    the record of the new name, with its status, then the old name on
    its own. *)
Definition rename_records : list bytes := [blit "R  new"; blit "old.txt"].

(** Two entries with names in ASCII. *)
Definition plain_entries : list (bytes * string) :=
  [(blit "?? ", "a"%string); (blit " M ", "b c"%string)].

(** An entry whose name is two bytes that are no UTF-8, then one whose
    name is in ASCII. *)
Definition mixed_records : list bytes :=
  [blit "?? " ++ ["128"%byte; "255"%byte]; blit "?? ok"].

(** A git whose status query exits with 128 and prints nothing, and one
    whose status query succeeds and prints nothing. *)
Definition git_status_fails : program :=
  scripted_git [] (fails_at "status" 0 128).
Definition git_no_changes : program := scripted_git [] always_ok.

(** A world in which a file has the name of the path-list file. *)
Definition occupied : world := World {[ list_file := lit "precious" ]} [].

(** Some values of the runtime model, checked by evaluation. *)

Example split_example :
  split "000" (blit " M a.txt" ++ ["000"%byte] ++ blit "?? b c" ++ ["000"%byte])
  = [blit " M a.txt"; blit "?? b c"; []].
Proof. reflexivity. Qed.

Example split_empty : split "000" [] = [[]].
Proof. reflexivity. Qed.

Example slice_example : slice [1; 2; 3; 4; 5] 2 4 = [3; 4].
Proof. reflexivity. Qed.

Example slice_clamped : slice [1; 2; 3; 4; 5] 3 10 = [4; 5].
Proof. reflexivity. Qed.

Example decode_ascii : utf8_decode_ignore (blit "a b.txt") = lit "a b.txt".
Proof. reflexivity. Qed.

(** U+00E9 (two bytes), U+20AC (three bytes), U+1F600 (four bytes). *)
Example decode_multibyte :
  utf8_decode_ignore
    ["195"; "169"; "226"; "130"; "172"; "240"; "159"; "152"; "128"]%byte
  = [0xE9; 0x20AC; 0x1F600]%N.
Proof. reflexivity. Qed.

(** A stray continuation byte, an overlong form and a truncated sequence
    are dropped; the text around them is kept. *)
Example decode_ignores_errors :
  utf8_decode_ignore
    ["097"; "128"; "098"; "192"; "175"; "099"; "226"; "130"]%byte
  = lit "abc".
Proof. reflexivity. Qed.

Example str_of_int_example : str_of_int 1200 = lit "1200".
Proof. reflexivity. Qed.

(* ===================================================================== *)
(** ** Properties of the runtime model *)
(* ===================================================================== *)

Section PyFacts.

Context {A : Type}.
Implicit Types l : list A.

Lemma len_nonneg l : 0 ≤ len l.
Proof. unfold len. lia. Qed.

Lemma truthy_spec l : truthy l = true ↔ l ≠ [].
Proof. destruct l; simpl; split; congruence. Qed.

Lemma truthy_false l : truthy l = false ↔ l = [].
Proof. destruct l; simpl; split; congruence. Qed.

(** A slice bound that lies inside the sequence is itself. *)
Lemma slice_bound_inside n i : 0 ≤ i ≤ n → slice_bound n i = Z.to_nat i.
Proof.
  intros Hi. unfold slice_bound.
  destruct (Z.ltb_spec i 0); [lia|]. f_equal. lia.
Qed.

(** A slice bound past the end is the length. *)
Lemma slice_bound_beyond n i : 0 ≤ n ≤ i → slice_bound n i = Z.to_nat n.
Proof.
  intros Hi. unfold slice_bound.
  destruct (Z.ltb_spec i 0); [lia|]. f_equal. lia.
Qed.

(** [l[k:]] for a constant [k ≥ 0] drops the first [k] elements. *)
Lemma slice_from_drop l (k : nat) : slice_from l (Z.of_nat k) = drop k l.
Proof.
  unfold slice_from.
  destruct (decide (k ≤ length l)%nat) as [Hk|Hk].
  - rewrite slice_bound_inside by (unfold len; lia). by rewrite Nat2Z.id.
  - rewrite slice_bound_beyond by (unfold len; lia).
    unfold len. rewrite Nat2Z.id.
    rewrite !drop_ge; [done | lia | lia].
Qed.

(** [l[a:b]] with [0 ≤ a] takes [b - a] elements after the first [a],
    as far as there are any. *)
Lemma slice_take_drop l (a b : Z) :
  0 ≤ a → a ≤ b →
  slice l a b = take (Z.to_nat (b - a)) (drop (Z.to_nat a) l).
Proof.
  intros Ha Hab. unfold slice.
  pose proof (len_nonneg l) as Hl.
  destruct (decide (a ≤ len l)) as [Hin|Hout].
  - rewrite (slice_bound_inside _ a) by lia.
    destruct (decide (b ≤ len l)) as [Hb|Hb].
    + rewrite (slice_bound_inside _ b) by lia. f_equal. lia.
    + rewrite (slice_bound_beyond _ b) by lia.
      rewrite (take_ge _ (Z.to_nat (b - a)));
        [| rewrite length_drop; unfold len in *; lia].
      apply take_ge. rewrite length_drop. unfold len in *. lia.
  - rewrite (slice_bound_beyond _ a), (slice_bound_beyond _ b) by lia.
    rewrite Nat.sub_diag. simpl.
    rewrite (drop_ge l (Z.to_nat a)) by (unfold len in *; lia).
    by rewrite take_nil.
Qed.

End PyFacts.

(** [split] yields at least one piece, none of them holding the
    separator, and joining the pieces gives the data back. *)
Lemma split_nonempty sep data : split sep data ≠ [].
Proof.
  destruct data as [|b data]; simpl; [done|].
  destruct (Byte.eqb b sep); [done|]. by destruct (split sep data).
Qed.

Lemma join_split sep data : join sep (split sep data) = data.
Proof.
  induction data as [|b data IH]; simpl; [done|].
  destruct (Byte.eqb b sep) eqn:Hb.
  - apply Byte.byte_dec_bl in Hb as ->.
    pose proof (split_nonempty sep data) as Hne.
    destruct (split sep data) as [|p ps]; [done|].
    simpl in *. by rewrite IH.
  - destruct (split sep data) as [|p ps] eqn:Hs.
    + by destruct (split_nonempty sep data).
    + simpl in *. destruct ps; simpl in *; by rewrite <- IH.
Qed.

Lemma split_pieces_clean sep data piece :
  piece ∈ split sep data → sep ∉ piece.
Proof.
  revert piece. induction data as [|b data IH]; simpl; intros piece.
  - intros ->%list_elem_of_singleton. apply not_elem_of_nil.
  - destruct (Byte.eqb b sep) eqn:Hb.
    + intros [->|Hin]%elem_of_cons; [apply not_elem_of_nil | by apply IH].
    + assert (b ≠ sep) as Hne.
      { intros Heq. apply Byte.byte_dec_lb in Heq. congruence. }
      destruct (split sep data) as [|p ps].
      * intros ->%list_elem_of_singleton.
        intros [?|[]%not_elem_of_nil]%elem_of_cons. congruence.
      * intros [->|Hin]%elem_of_cons.
        -- intros [?|Hp]%elem_of_cons; [congruence|].
           revert Hp. apply IH. by left.
        -- apply IH. by right.
Qed.

(** The decoder maps the empty byte sequence to the empty text. *)
Lemma utf8_decode_ignore_nil : utf8_decode_ignore [] = [].
Proof. reflexivity. Qed.

(** The text written by a sequence of [write] calls is the concatenation
    of their arguments. *)
Lemma written_concat (lines : list str) : written lines = concat lines.
Proof.
  unfold written.
  enough (∀ acc, fold_left (λ text line, text ++ line) lines acc
                 = acc ++ concat lines) as H by apply (H []).
  induction lines as [|x xs IH]; intros acc; simpl.
  - by rewrite app_nil_r.
  - by rewrite IH, <- app_assoc.
Qed.

(* ===================================================================== *)
(** ** Enumerating the changes *)
(* ===================================================================== *)

Section Enumerate.

Context (decode : bytes → str).

(** The loop over the entries appends to [files], in order, the decoded
    paths that are not empty, of the entries that are not empty. *)
Lemma scan_entries_from (entries : list bytes) (files : list str) :
  fold_left (scan_entry decode) entries files
  = files ++ filter (λ path, path ≠ [])
               (map (λ record, decode (drop 3 record))
                  (filter (λ record, record ≠ []) entries)).
Proof.
  revert files. induction entries as [|entry entries IH]; intros files.
  - simpl. by rewrite app_nil_r.
  - simpl fold_left. rewrite IH. unfold scan_entry.
    destruct entry as [|b entry].
    + simpl. by rewrite filter_cons_False by (intros H; by apply H).
    + rewrite (filter_cons_True _ (b :: entry)) by done.
      change 3 with (Z.of_nat 3). rewrite slice_from_drop.
      rewrite map_cons. cbn [truthy negb].
      destruct (decode (drop 3 (b :: entry))) as [|c path] eqn:Hd.
      * cbn [truthy]. by rewrite filter_cons_False by (intros H; by apply H).
      * cbn [truthy]. rewrite filter_cons_True by done.
        by rewrite <- app_assoc.
Qed.

Lemma scan_entries_spec (out : bytes) :
  scan_entries decode (split "000" out) = changed_paths_spec decode out.
Proof. unfold scan_entries. by rewrite scan_entries_from. Qed.

(** No path of the result is empty. *)
Lemma changed_paths_nonempty (out : bytes) :
  Forall (λ path, path ≠ []) (changed_paths_spec decode out).
Proof.
  unfold changed_paths_spec. apply list.Forall_forall.
  by intros path [Hne _]%list_elem_of_filter.
Qed.

(** An output without any entry gives no path. *)
Lemma changed_paths_no_entry : changed_paths_spec decode [] = [].
Proof. reflexivity. Qed.

End Enumerate.

(* ===================================================================== *)
(** ** Partitioning the paths *)
(* ===================================================================== *)

Section Partition.

Context (cfg : config).
Hypothesis batch_size_pos : 1 ≤ BATCH_SIZE cfg.

Local Abbreviation B := (BATCH_SIZE cfg).

(** [num_batches] is the ceiling of [N / B]. *)
Lemma num_batches_ceiling (N : Z) :
  (num_batches cfg N - 1) * B < N ≤ num_batches cfg N * B.
Proof.
  unfold num_batches.
  pose proof (Z.div_mod (N + B - 1) B ltac:(lia)) as Hdm.
  pose proof (Z.mod_pos_bound (N + B - 1) B ltac:(lia)) as Hr.
  nia.
Qed.

Lemma num_batches_nonneg (N : Z) : 0 ≤ N → 0 ≤ num_batches cfg N.
Proof. intros HN. pose proof (num_batches_ceiling N). nia. Qed.

(** Turn [i] takes the [B] paths that follow the first [i * B], as far
    as there are any. *)
Lemma batch_files_chunk (all_files : list str) (i : Z) :
  0 ≤ i →
  batch_files cfg all_files i
  = take (Z.to_nat B) (drop (Z.to_nat (i * B)) all_files).
Proof.
  intros Hi. unfold batch_files.
  pose proof (len_nonneg all_files) as HN.
  destruct (decide (i * B ≤ len all_files)) as [Hin|Hout].
  - rewrite slice_take_drop by lia.
    destruct (decide (i * B + B ≤ len all_files)) as [Hfull|Hshort].
    + f_equal. lia.
    + rewrite !take_ge; [done | |]; rewrite length_drop; unfold len in *; lia.
  - unfold slice.
    rewrite (slice_bound_beyond _ (i * B)) by lia.
    rewrite Z.min_r by lia.
    rewrite (slice_bound_inside _ (len all_files)) by lia.
    rewrite Nat.sub_diag. simpl.
    rewrite (drop_ge all_files (Z.to_nat (i * B))) by (unfold len in *; lia).
    by rewrite take_nil.
Qed.

Lemma batch_files_len (all_files : list str) (i : Z) :
  0 ≤ i → i * B ≤ len all_files →
  len (batch_files cfg all_files i) = Z.min B (len all_files - i * B).
Proof.
  intros Hi Hin. rewrite batch_files_chunk by done.
  unfold len in *. rewrite length_take, length_drop. lia.
Qed.

(** The first [n] chunks of [b] elements make up the first [n * b]
    elements. *)
Lemma concat_chunks {A} (l : list A) (b n : nat) :
  concat (map (λ i : nat, take b (drop (i * b) l)) (seq 0 n))
  = take (n * b) l.
Proof.
  induction n as [|n IH]; [done|].
  rewrite seq_S, map_app, concat_app, IH. simpl.
  rewrite app_nil_r, take_take_drop. f_equal. lia.
Qed.

Lemma batches_chunks (all_files : list str) :
  batches cfg all_files
  = map (λ i : nat, take (Z.to_nat B) (drop (i * Z.to_nat B) all_files))
      (seq 0 (Z.to_nat (num_batches cfg (len all_files)))).
Proof.
  unfold batches, range, seqZ. rewrite <- list_fmap_compose.
  apply map_ext. intros i. simpl.
  rewrite batch_files_chunk by lia. do 2 f_equal. lia.
Qed.

Lemma batches_concat (all_files : list str) :
  concat (batches cfg all_files) = all_files.
Proof.
  rewrite batches_chunks, concat_chunks. apply take_ge.
  pose proof (num_batches_ceiling (len all_files)) as Hc.
  pose proof (num_batches_nonneg (len all_files) (len_nonneg _)).
  unfold len in *. nia.
Qed.

Lemma batches_len (all_files : list str) :
  len (batches cfg all_files) = num_batches cfg (len all_files).
Proof.
  unfold batches, range, len at 1. rewrite length_map, length_seqZ.
  pose proof (num_batches_nonneg (len all_files) (len_nonneg _)). lia.
Qed.

End Partition.

(* ===================================================================== *)
(** ** Running the script *)
(* ===================================================================== *)

(** *** Projections of traces *)

Lemma commands_app (tr1 tr2 : list event) :
  commands (tr1 ++ tr2) = commands tr1 ++ commands tr2.
Proof.
  induction tr1 as [|[] tr1 IH]; simpl; by rewrite ?IH.
Qed.

Lemma actions_app (tr1 tr2 : list event) :
  actions (tr1 ++ tr2) = actions tr1 ++ actions tr2.
Proof.
  induction tr1 as [|[] tr1 IH]; simpl; by rewrite ?IH.
Qed.

Lemma commands_turn_events cfg all_files total i o removed :
  commands (turn_events cfg all_files total i o removed)
  = turn_commands cfg total i o.
Proof. by destruct o, removed. Qed.

Lemma actions_turn_events cfg all_files total i o removed :
  actions (turn_events cfg all_files total i o removed)
  = turn_actions cfg all_files total i o.
Proof. by destruct o, removed. Qed.

(** *** The command lines are pairwise distinct *)

Lemma subcommand_add : subcommand add_args = lit "add".
Proof. reflexivity. Qed.
Lemma subcommand_commit msg : subcommand (commit_args msg) = lit "commit".
Proof. reflexivity. Qed.
Lemma subcommand_push : subcommand push_args = lit "push".
Proof. reflexivity. Qed.
Lemma subcommand_status : subcommand status_args = lit "status".
Proof. reflexivity. Qed.

Ltac distinct_commands :=
  let H := fresh in
  intros H; apply (f_equal subcommand) in H;
  rewrite ?subcommand_add, ?subcommand_commit, ?subcommand_push,
    ?subcommand_status in H;
  vm_compute in H; discriminate H.

Lemma add_not_push : add_args ≠ push_args.
Proof. distinct_commands. Qed.
Lemma add_not_status : add_args ≠ status_args.
Proof. distinct_commands. Qed.
Lemma add_not_commit msg : add_args ≠ commit_args msg.
Proof. distinct_commands. Qed.
Lemma commit_not_push msg : commit_args msg ≠ push_args.
Proof. distinct_commands. Qed.
Lemma commit_not_status msg : commit_args msg ≠ status_args.
Proof. distinct_commands. Qed.
Lemma push_not_status : push_args ≠ status_args.
Proof. distinct_commands. Qed.

Section Run.

Context (cfg : config) (decode : bytes → str) (git : program).

Local Abbreviation process := (process_batch cfg git).

(** *** Sequencing *)

Lemma bind_run {A B} (m : M A) (f : A → M B) (w : world) :
  (m ≫= f) w
  = match m w with
    | (Ok a, w') => f a w'
    | (Raise e, w') => (Raise e, w')
    end.
Proof. reflexivity. Qed.

Lemma ret_bind {A B} (a : A) (f : A → M B) (w : world) :
  (mret a ≫= f) w = f a w.
Proof. reflexivity. Qed.

Lemma raise_bind {A B} (e : exn) (f : A → M B) (w : world) :
  (raise e ≫= f) w = (Raise e, w).
Proof. reflexivity. Qed.

Lemma print_bind {B} (m : message) (f : unit → M B) (w : world) :
  (print m ≫= f) w = f tt (World (fs w) (trace w ++ [EPrint m])).
Proof. reflexivity. Qed.

(** *** [run_git_command] *)

(** The command is run once; a non-zero exit status is caught, reported
    in two lines, and turned into [None]. *)
Lemma run_git_command_run (args : list str) (w : world) :
  run_git_command decode git args w =
  let cp := (git w args).1 in
  let files := (git w args).2 in
  if returncode cp =? 0
  then (Ok (Some (stdout cp)), World files (trace w ++ [ERun args 0]))
  else (Ok None,
        World files
          (trace w ++ [ERun args (returncode cp);
                       EPrint (MsgCommandFailed args);
                       EPrint (MsgErrorInfo (decode (stderr cp)))])).
Proof.
  unfold run_git_command, try_except, subprocess_run, mbind, M_bind, print.
  destruct (git w args) as [cp files]. simpl.
  destruct (Z.eqb_spec (returncode cp) 0) as [->|Hrc]; simpl; [done|].
  by rewrite <- !app_assoc.
Qed.

(** *** [get_changed_files] *)

Lemma get_changed_files_run (w : world) :
  get_changed_files decode git w =
  match run_git_command decode git status_args w with
  | (Ok (Some out), w') => (Ok (changed_paths_spec decode out), w')
  | (Ok None, w') => (Ok [], w')
  | (Raise e, w') => (Raise e, w')
  end.
Proof.
  unfold get_changed_files, mbind, M_bind at 1.
  destruct (run_git_command decode git status_args w) as [[[out|]|e] w'];
    [|done|done].
  destruct out as [|b out]; [done|].
  cbn [truthy negb]. by rewrite scan_entries_spec.
Qed.

(** [get_changed_files] returns a list, and the only command it runs is
    the status query. *)
Lemma get_changed_files_total (w : world) :
  ∃ all_files w' rc,
    get_changed_files decode git w = (Ok all_files, w')
    ∧ rc = returncode (git w status_args).1
    ∧ commands (trace w') = commands (trace w) ++ [(status_args, rc)]
    ∧ actions (trace w') = actions (trace w) ++ [ERun status_args rc]
    ∧ fs w' = (git w status_args).2
    ∧ (rc ≠ 0 → all_files = []).
Proof.
  rewrite get_changed_files_run, run_git_command_run.
  destruct (git w status_args) as [cp files]. simpl.
  destruct (Z.eqb_spec (returncode cp) 0) as [Hrc|Hrc].
  - eexists _, _, _. split; [done|]. simpl.
    rewrite commands_app, actions_app, Hrc. by repeat split.
  - eexists _, _, _. split; [done|]. simpl.
    rewrite commands_app, actions_app. by repeat split.
Qed.

(** *** The [finally] clause *)

Lemma cleanup_run (w : world) :
  ∃ removed : bool,
    cleanup w
    = (Ok tt, World (delete list_file (fs w))
                (trace w ++ if removed then [ERemove list_file] else [])).
Proof.
  unfold cleanup, mbind, M_bind, os_path_exists, os_remove.
  destruct (fs w !! list_file) as [text|] eqn:Hfile.
  - exists true. rewrite bool_decide_eq_true_2 by eauto. done.
  - exists false. rewrite bool_decide_eq_false_2 by (by intros [? ?]).
    simpl. rewrite app_nil_r, delete_id by done. by destruct w.
Qed.

(** Whatever the guarded block does, the path-list file is gone after
    the [finally] clause. *)
Lemma try_finally_cleanup {A} (body : M A) (w : world) :
  fs (try_finally body cleanup w).2 !! list_file = None.
Proof.
  unfold try_finally. destruct (body w) as [r w1].
  destruct (cleanup_run w1) as [removed ->]. simpl. apply lookup_delete_eq.
Qed.

(** *** One turn of the loop *)

Lemma process_batch_run (all_files : list str) (total i : Z) (w : world) :
  ∃ o removed w',
    process all_files total i w = (Ok (flow_of o), w')
    ∧ genuine o
    ∧ trace w' = trace w ++ turn_events cfg all_files total i o removed
    ∧ fs w' !! list_file = None
    ∧ (stops o → ∃ w0 args, returncode (git w0 args).1 ≠ 0).
Proof.
  unfold process_batch, try_finally, try_except, attempt.
  unfold mbind, M_bind, print, write_file, subprocess_run. simpl.
  match goal with |- context [git ?w0 add_args] =>
    destruct (git w0 add_args) as [cp1 f1] eqn:Hadd end.
  destruct (Z.eqb_spec (returncode cp1) 0) as [Hrc1|Hrc1]; simpl.
  2:{ match goal with |- context [cleanup ?w0] =>
        destruct (cleanup_run w0) as [removed ->] end.
      exists (AddFailed (returncode cp1) (stderr cp1)), removed. eexists.
      split; [done|]. split; [done|]. simpl. split.
      { unfold turn_events. simpl. by rewrite <- !app_assoc. }
      split; [apply lookup_delete_eq|].
      intros _. eexists _, _. by rewrite Hadd. }
  match goal with |- context [git ?w0 (commit_args ?m)] =>
    destruct (git w0 (commit_args m)) as [cp2 f2] eqn:Hcommit end.
  destruct (Z.eqb_spec (returncode cp2) 0) as [Hrc2|Hrc2]; simpl.
  2:{ match goal with |- context [cleanup ?w0] =>
        destruct (cleanup_run w0) as [removed ->] end.
      exists (CommitFailed (returncode cp2) (stderr cp2)), removed. eexists.
      split; [done|]. split; [done|]. simpl. split.
      { unfold turn_events. simpl. by rewrite Hrc1, <- !app_assoc. }
      split; [apply lookup_delete_eq|].
      intros _. eexists _, _. by rewrite Hcommit. }
  match goal with |- context [git ?w0 push_args] =>
    destruct (git w0 push_args) as [cp3 f3] eqn:Hpush end.
  destruct (Z.eqb_spec (returncode cp3) 0) as [Hrc3|Hrc3]; simpl.
  - match goal with |- context [cleanup ?w0] =>
      destruct (cleanup_run w0) as [removed ->] end.
    exists Pushed, removed. eexists.
    split; [done|]. split; [done|]. simpl. split.
    { unfold turn_events. simpl. by rewrite Hrc1, Hrc2, Hrc3, <- !app_assoc. }
    split; [apply lookup_delete_eq|]. by intros [].
  - match goal with |- context [cleanup ?w0] =>
      destruct (cleanup_run w0) as [removed ->] end.
    exists (PushFailed (returncode cp3)), removed. eexists.
    split; [done|]. split; [done|]. simpl. split.
    { unfold turn_events. simpl. by rewrite Hrc1, Hrc2, <- !app_assoc. }
    split; [apply lookup_delete_eq|].
    intros _. eexists _, _. by rewrite Hpush.
Qed.

(** *** The loop *)

Lemma for_each_run (all_files : list str) (total : Z) (turns : list Z)
    (w : world) :
  ∃ evs w' done last,
    for_each turns (process all_files total) w = (Ok tt, w')
    ∧ trace w' = trace w ++ evs
    ∧ loop_trace cfg all_files total turns done last evs
    ∧ (turns ≠ [] → fs w' !! list_file = None)
    ∧ (is_Some last → ∃ w0 args, returncode (git w0 args).1 ≠ 0).
Proof.
  revert w. induction turns as [|i turns IH]; intros w.
  - exists [], w, 0%nat, None. simpl. rewrite app_nil_r.
    repeat split; [constructor | done | by intros [? ?]].
  - destruct (process_batch_run all_files total i w)
      as (o & removed & w1 & Hrun & Hgen & Htr & Hfs & Hfail).
    simpl. unfold mbind, M_bind. rewrite Hrun.
    destruct (decide (o = Pushed)) as [->|Hstop].
    + simpl. destruct (IH w1) as (evs & w2 & done & last & Hloop & Htr2 & Hlt & Hfs2 & Hf2).
      exists (turn_events cfg all_files total i Pushed removed ++ evs), w2,
        (S done), last.
      split; [done|]. split; [by rewrite Htr2, Htr, <- app_assoc|].
      split; [by constructor|]. split; [|done].
      intros _. destruct turns as [|j turns]; [|by apply Hfs2].
      simpl in Hloop. by injection Hloop as <-.
    + exists (turn_events cfg all_files total i o removed), w1, 0%nat, (Some o).
      split; [by destruct o|]. split; [done|].
      split; [by constructor|]. split; [done|]. intros _. by apply Hfail.
Qed.

(** The commands and actions of a loop are those of its pushed turns,
    followed by those of the turn that stopped it. *)
Lemma loop_trace_summary (all_files : list str) (total : Z) turns done last evs :
  loop_trace cfg all_files total turns done last evs →
  commands evs = loop_commands cfg total turns done last
  ∧ actions evs = loop_actions cfg all_files total turns done last
  ∧ match last with
    | None => done = length turns
    | Some o => (done < length turns)%nat ∧ genuine o ∧ stops o
    end.
Proof.
  induction 1 as [|i turns removed done last evs Hloop (IHc & IHa & IHl)
                  |i turns o removed Hgen Hstop].
  - done.
  - rewrite commands_app, actions_app, commands_turn_events,
      actions_turn_events, IHc, IHa.
    unfold loop_commands, loop_actions. simpl.
    split; [done|]. split; [done|].
    destruct last; simpl in *; [|lia]. destruct IHl as (? & ? & ?).
    repeat split; [lia | done | done].
  - rewrite commands_turn_events, actions_turn_events.
    repeat split; simpl; [lia | done | done].
Qed.

(** The exception that stopped a loop was printed by its handler. *)
Lemma loop_trace_reported (all_files : list str) (total : Z) turns done last evs :
  loop_trace cfg all_files total turns done last evs →
  ∀ o i e,
    last = Some o → turns !! done = Some i → raised cfg total i o = Some e →
    EPrint (MsgException e) ∈ evs.
Proof.
  induction 1 as [|i turns removed done last evs Hloop IH
                  |i turns o removed Hgen Hstop];
    intros o' j e Hlast Hturn Hraised.
  - done.
  - apply elem_of_app. right. by eapply IH.
  - injection Hlast as <-. injection Hturn as <-.
    unfold turn_events. apply elem_of_app. right. apply elem_of_app. left.
    destruct o; simpl in Hraised |- *; try done; injection Hraised as <-.
    + apply list_elem_of_further, list_elem_of_here.
    + do 2 apply list_elem_of_further. apply list_elem_of_here.
Qed.

(** *** [main] *)

(** The three ways [main] can go: nothing to commit; a batch size of
    zero, which makes the division raise; the loop. *)
Lemma main_run (w : world) :
  ∃ all_files w2,
    get_changed_files decode git (listing_world w) = (Ok all_files, w2)
    ∧ ((all_files = []
        ∧ main cfg decode git w
          = (Ok tt, World (fs w2) (trace w2 ++ [EPrint MsgNoFiles])))
       ∨ (all_files ≠ [] ∧ BATCH_SIZE cfg = 0
          ∧ main cfg decode git w
            = (Raise ZeroDivisionError,
               World (fs w2) (trace w2 ++ [EPrint (MsgFound (len all_files))])))
       ∨ (all_files ≠ [] ∧ BATCH_SIZE cfg ≠ 0
          ∧ ∃ evs files done last,
              let total := num_batches cfg (len all_files) in
              main cfg decode git w
              = (Ok tt,
                 World files
                   (trace w2 ++ [EPrint (MsgFound (len all_files))]
                      ++ evs ++ [EPrint MsgFinished]))
              ∧ loop_trace cfg all_files total (range total) done last evs
              ∧ (range total ≠ [] → files !! list_file = None)
              ∧ (is_Some last → ∃ w0 args, returncode (git w0 args).1 ≠ 0))).
Proof.
  destruct (get_changed_files_total (listing_world w))
    as (all_files & w2 & rc & Hget & _).
  exists all_files, w2. split; [done|].
  unfold main. rewrite print_bind. fold (listing_world w).
  rewrite bind_run, Hget. cbv beta iota zeta.
  destruct all_files as [|path all_files].
  - left. by split.
  - right. set (all := path :: all_files).
    assert ((len all =? 0) = false) as ->
      by (apply Z.eqb_neq; unfold len; simpl; lia).
    rewrite print_bind. unfold floordiv.
    destruct (Z.eqb_spec (BATCH_SIZE cfg) 0) as [HB|HB].
    + left. by repeat split.
    + right. split; [done|]. split; [done|].
      rewrite ret_bind. fold (num_batches cfg (len all)). rewrite bind_run.
      match goal with |- context [for_each ?turns ?body ?w0] =>
        destruct (for_each_run all (num_batches cfg (len all)) turns w0)
          as (evs & w3 & done & last & -> & Htr & Hloop & Hfs & Hfail) end.
      exists evs, (fs w3), done, last. simpl.
      split; [|done]. unfold print. rewrite Htr. simpl.
      by rewrite <- !app_assoc.
Qed.

End Run.

(* ===================================================================== *)
(** ** A whole run, seen from outside *)
(* ===================================================================== *)

Lemma take_range (k : nat) (n : Z) :
  Z.of_nat k ≤ n → take k (range n) = range (Z.of_nat k).
Proof.
  intros Hk. unfold range, seqZ.
  rewrite <- fmap_take, take_seq. do 2 f_equal. lia.
Qed.

Lemma lookup_range (k : nat) (n : Z) :
  Z.of_nat k < n → range n !! k = Some (Z.of_nat k).
Proof. intros Hk. unfold range. by rewrite lookup_seqZ_lt. Qed.

Lemma length_range (n : Z) : length (range n) = Z.to_nat n.
Proof. apply length_seqZ. Qed.

(** The exit statuses of the pushes of a loop: zero for every pushed
    turn, then that of the push that stopped it, if a push did. *)
Lemma push_codes_app (c1 c2 : list (list str * Z)) :
  push_codes (c1 ++ c2) = push_codes c1 ++ push_codes c2.
Proof. unfold push_codes. by rewrite list.filter_app, map_app. Qed.

Lemma push_codes_turn cfg total i o :
  push_codes (turn_commands cfg total i o)
  = match o with
    | Pushed => [0]
    | PushFailed rc => [rc]
    | _ => []
    end.
Proof.
  pose proof add_not_push. pose proof (commit_not_push (commit_message cfg i total)).
  unfold push_codes.
  destruct o; simpl;
    repeat first
      [ rewrite filter_cons_False by (simpl; congruence)
      | rewrite filter_cons_True by done ];
    done.
Qed.

Lemma push_codes_pushed cfg total (turns : list Z) :
  push_codes (flat_map (λ i, turn_commands cfg total i Pushed) turns)
  = replicate (length turns) 0.
Proof.
  induction turns as [|i turns IH]; [done|].
  cbn [flat_map]. rewrite push_codes_app, IH, push_codes_turn. done.
Qed.

Section Outside.

Context (cfg : config) (decode : bytes → str) (git : program).

Local Abbreviation run := (script cfg decode git).

(** The exit status and the commands of a run, by the three ways [main]
    can go. *)
Lemma script_run (w : world) :
  let all_files := listed decode git w in
  let total := num_batches cfg (len all_files) in
  ∃ rc done last,
    rc = returncode (git (listing_world w) status_args).1
    ∧ (rc ≠ 0 → all_files = [])
    ∧ commands (trace (run w).2)
      = commands (trace w) ++ (status_args, rc)
          :: loop_commands cfg total (range total) done last
    ∧ actions (trace (run w).2)
      = actions (trace w) ++ ERun status_args rc
          :: loop_actions cfg all_files total (range total) done last
    ∧ ((all_files = [] ∧ done = 0%nat ∧ last = None
        ∧ (run w).1 = ExitSuccess
        ∧ list.last (trace (run w).2) = Some (EPrint MsgNoFiles))
       ∨ (all_files ≠ [] ∧ BATCH_SIZE cfg = 0 ∧ done = 0%nat ∧ last = None
          ∧ (run w).1 = ExitUnhandled ZeroDivisionError)
       ∨ (all_files ≠ [] ∧ BATCH_SIZE cfg ≠ 0
          ∧ (run w).1 = ExitSuccess
          ∧ list.last (trace (run w).2) = Some (EPrint MsgFinished)
          ∧ match last with
            | None => done = length (range total)
            | Some o => (done < length (range total))%nat ∧ genuine o ∧ stops o
            end
          ∧ (range total ≠ [] → fs (run w).2 !! list_file = None)
          ∧ (is_Some last → ∃ w0 args, returncode (git w0 args).1 ≠ 0)
          ∧ (∀ o i e,
               last = Some o → range total !! done = Some i →
               raised cfg total i o = Some e →
               EPrint (MsgException e) ∈ trace (run w).2))).
Proof.
  intros all_files total. subst all_files total. unfold listed, script.
  destruct (main_run cfg decode git w) as (all_files & w2 & Hget & Hmain).
  destruct (get_changed_files_total decode git (listing_world w))
    as (all' & w2' & rc & Hget' & Hrc & Hcmd & Hact & _ & Hfail).
  rewrite Hget in Hget'. injection Hget' as <- <-.
  rewrite Hget. simpl in Hcmd, Hact.
  rewrite commands_app, app_nil_r in Hcmd.
  rewrite actions_app, app_nil_r in Hact.
  destruct Hmain as [(-> & ->)|[(Hne & HB & ->)|(Hne & HB & Hmain)]].
  - exists rc, 0%nat, None. simpl.
    rewrite commands_app, actions_app, Hcmd, Hact. simpl.
    rewrite !app_nil_r, last_snoc. split; [done|]. split; [done|].
    split; [done|]. split; [done|]. left. done.
  - exists rc, 0%nat, None. simpl.
    rewrite commands_app, actions_app, Hcmd, Hact. simpl.
    rewrite !app_nil_r. split; [done|]. split; [done|].
    split; [done|]. split; [done|]. right. left. done.
  - destruct Hmain as (evs & files & done & last & -> & Hloop & Hfs & Hgit).
    pose proof (loop_trace_reported _ _ _ _ _ _ _ Hloop) as Hrep.
    apply loop_trace_summary in Hloop as (Hc & Ha & Hsum).
    exists rc, done, last. cbn [fst snd exit_of trace fs].
    rewrite !commands_app, !actions_app, Hcmd, Hact, Hc, Ha. simpl.
    rewrite !app_nil_r, <- !app_assoc. simpl.
    split; [done|]. split; [done|]. split; [done|]. split; [done|].
    right. right. split; [done|]. split; [done|]. split; [done|].
    split; [rewrite app_comm_cons, app_assoc; apply last_snoc|].
    split; [done|]. split; [done|]. split; [done|].
    intros o i e Ho Hi He. apply elem_of_app. right.
    apply list_elem_of_further, elem_of_app. left. by eapply Hrep.
Qed.

End Outside.

(* ===================================================================== *)
(** ** The properties of the script *)
(* ===================================================================== *)

(** *** Partitioning *)

(** C2.  For a batch size [B ≥ 1] and [N] changed paths, the loop of
    [main] walks through [T = ceil(N / B)] batches ([T] is the integer
    with [(T - 1) * B < N ≤ T * B]); batch [i] is the slice of [B] paths
    that starts at position [i * B]; every batch but the last has [B]
    paths, the last has [N mod B] paths, or [B] when [N mod B = 0]; and
    the batches, one after the other, are the list of paths itself. *)
Theorem partition_into_batches (cfg : config) (all_files : list str) :
  1 ≤ BATCH_SIZE cfg →
  let B := BATCH_SIZE cfg in
  let N := len all_files in
  let T := num_batches cfg N in
  len (batches cfg all_files) = T
  ∧ (T - 1) * B < N ≤ T * B
  ∧ (∀ i, 0 ≤ i < T →
       batch_files cfg all_files i
       = take (Z.to_nat B) (drop (Z.to_nat (i * B)) all_files))
  ∧ (∀ i, 0 ≤ i < T - 1 → len (batch_files cfg all_files i) = B)
  ∧ (0 < T →
       len (batch_files cfg all_files (T - 1))
       = if N mod B =? 0 then B else N mod B)
  ∧ concat (batches cfg all_files) = all_files.
Proof.
  intros HB B N T.
  pose proof (num_batches_ceiling cfg HB N) as Hceil. fold T B in Hceil.
  pose proof (len_nonneg all_files) as HN. fold N in HN.
  split; [by apply batches_len|]. split; [done|].
  split; [intros i Hi; apply batch_files_chunk; lia|].
  split; [|split; [|by apply batches_concat]].
  - intros i Hi.
    assert (i * B + B ≤ (T - 1) * B) as Hfull
      by (replace (i * B + B) with ((i + 1) * B) by lia;
          apply Z.mul_le_mono_nonneg_r; lia).
    rewrite batch_files_len by (fold B N; lia). fold B N. lia.
  - intros HT. rewrite batch_files_len by (fold B N; lia). fold B N.
    pose proof (Z.div_mod N B ltac:(lia)) as Hdm.
    pose proof (Z.mod_pos_bound N B ltac:(lia)) as Hr.
    set (q := N / B) in *. set (r := N mod B) in *.
    assert (T = if r =? 0 then q else q + 1) as HTq.
    { destruct (Z.eqb_spec r 0) as [H0|H0]; nia. }
    destruct (Z.eqb_spec r 0) as [H0|H0]; subst T; rewrite HTq; nia.
Qed.

(** *** Enumerating the changes *)

(** C4.  Whatever the status query prints, [get_changed_files] returns
    the paths the specification describes: the output split on null
    bytes, the empty records skipped, the first three bytes of each
    record dropped, the rest decoded, the empty paths skipped, in the
    order of the output and with its repetitions.  (When the query exits
    with a non-zero status there is no output, and no path.) *)
Theorem enumerate_changes_as_specified
    (decode : bytes → str) (git : program) (w : world) :
  let cp := (git w status_args).1 in
  ∃ w',
    get_changed_files decode git w
    = (Ok (if returncode cp =? 0
           then changed_paths_spec decode (stdout cp)
           else []),
       w').
Proof.
  intros cp. subst cp.
  rewrite get_changed_files_run, run_git_command_run. simpl.
  destruct (returncode (git w status_args).1 =? 0); eauto.
Qed.

(** *** The path-list file *)

(** C10.  The text of the path-list file does not determine the batch:
    the one path "a<LF>b" and the two paths "a", "b" (both of which the
    status query can report) give the same text, so that the [try] block
    of a turn, staging included, goes the same way for both. *)
Theorem path_list_text_not_injective :
  let one := [lit "a" ++ newline ++ lit "b"] in
  let two := [lit "a"; lit "b"] in
  one ≠ two
  ∧ changed_paths_spec utf8_decode_ignore
      (blit "?? a" ++ ["010"%byte] ++ blit "b" ++ ["000"%byte]) = one
  ∧ changed_paths_spec utf8_decode_ignore (porcelain ["a"; "b"]) = two
  ∧ file_text one = file_text two
  ∧ (∀ cfg git i total w,
       attempt cfg git one i total w = attempt cfg git two i total w)
  ∧ ¬ (∀ batch1 batch2, file_text batch1 = file_text batch2 → batch1 = batch2).
Proof.
  intros one two.
  assert (one ≠ two) as Hne by (intros H; discriminate H).
  split; [done|]. split; [reflexivity|]. split; [reflexivity|].
  split; [reflexivity|]. split; [reflexivity|].
  intros Hinj. apply Hne, Hinj. reflexivity.
Qed.

(** C8.  After a turn of the loop the path-list file does not exist:
    the [finally] clause leaves none whatever the guarded block did
    (returned, raised, or left the loop), and so does the turn, which
    never raises. *)
Theorem path_list_file_gone_after_turn
    (cfg : config) (git : program) (all_files : list str) (total i : Z)
    (w : world) :
  (∀ A (body : M A), fs (try_finally body cleanup w).2 !! list_file = None)
  ∧ fs (process_batch cfg git all_files total i w).2 !! list_file = None
  ∧ ∃ f, (process_batch cfg git all_files total i w).1 = Ok f.
Proof.
  split; [intros A body; apply try_finally_cleanup|].
  destruct (process_batch_run cfg git all_files total i w)
    as (o & removed & w' & -> & _ & _ & Hfs & _).
  split; [done|]. by eexists.
Qed.

(** *** Nothing to commit *)

(** C6.  When the list of changed paths is empty, the run says so and
    ends at once with the exit status of success; the status query is
    the only command it has run: nothing is staged, committed or
    pushed. *)
Theorem no_changes_no_commands
    (cfg : config) (decode : bytes → str) (git : program)
    (files : gmap str str) :
  let w := World files [] in
  listed decode git w = [] →
  (script cfg decode git w).1 = ExitSuccess
  ∧ list.last (trace (script cfg decode git w).2) = Some (EPrint MsgNoFiles)
  ∧ ∃ rc, commands (trace (script cfg decode git w).2) = [(status_args, rc)].
Proof.
  intros w Hnone.
  destruct (script_run cfg decode git w)
    as (rc & done & last & _ & _ & Hcmd & _ & Hcases).
  destruct Hcases as [(_ & -> & -> & Hexit & Hlast)
                     |[(Hne & _)|(Hne & _)]]; [|done|done].
  split; [done|]. split; [done|]. exists rc. by rewrite Hcmd.
Qed.

(** With an empty list, [main] prints that there is nothing to commit
    and returns. *)
Lemma script_no_files cfg decode git (w w' : world) :
  get_changed_files decode git (listing_world w) = (Ok [], w') →
  script cfg decode git w
  = (ExitSuccess, World (fs w') (trace w' ++ [EPrint MsgNoFiles])).
Proof.
  intros Hget. unfold script, main. rewrite print_bind.
  fold (listing_world w). by rewrite bind_run, Hget.
Qed.

(** C5, as the code has it.  When the status query exits with a
    non-zero status, the exception is caught in [run_git_command], which
    returns [None]; [get_changed_files] returns the empty list; the run
    reports that there is nothing to commit and ends with the exit
    status of success, the status query being its only command.  A run
    whose status query succeeds with an empty output goes the same way
    from the return of [get_changed_files] on: it gets the same list,
    has run the same command line, prints the same last line and exits
    with the same status.  The console tells the two runs apart: between
    its first and its last line, the run whose query failed shows the
    two lines [run_git_command] prints about the failure, the command
    line and the decoded standard error, and the other run shows
    nothing. *)
Theorem failed_status_query_reads_as_no_change
    (cfg : config) (decode : bytes → str) (git : program)
    (files : gmap str str) :
  let w := World files [] in
  let cp := (git (listing_world w) status_args).1 in
  returncode cp ≠ 0 →
  (∃ w', run_git_command decode git status_args (listing_world w)
         = (Ok None, w')
         ∧ get_changed_files decode git (listing_world w) = (Ok [], w')
         ∧ trace w'
           = [EPrint MsgListing; ERun status_args (returncode cp);
              EPrint (MsgCommandFailed status_args);
              EPrint (MsgErrorInfo (decode (stderr cp)))]
         ∧ script cfg decode git w
           = (ExitSuccess,
              World (fs w') (trace w' ++ [EPrint MsgNoFiles])))
  ∧ ∀ (git' : program) (files' : gmap str str),
      let w0 := World files' [] in
      let cp' := (git' (listing_world w0) status_args).1 in
      returncode cp' = 0 → stdout cp' = [] →
      (∃ w'', get_changed_files decode git' (listing_world w0) = (Ok [], w'')
              ∧ trace w'' = [EPrint MsgListing; ERun status_args 0]
              ∧ script cfg decode git' w0
                = (ExitSuccess,
                   World (fs w'') (trace w'' ++ [EPrint MsgNoFiles])))
      ∧ listed decode git' w0 = listed decode git w
      ∧ (script cfg decode git' w0).1 = (script cfg decode git w).1
      ∧ map fst (commands (trace (script cfg decode git' w0).2))
        = map fst (commands (trace (script cfg decode git w).2))
      ∧ list.last (trace (script cfg decode git' w0).2)
        = list.last (trace (script cfg decode git w).2)
      ∧ printed (trace (script cfg decode git w).2)
        = [MsgListing; MsgCommandFailed status_args;
           MsgErrorInfo (decode (stderr cp)); MsgNoFiles]
      ∧ printed (trace (script cfg decode git' w0).2)
        = [MsgListing; MsgNoFiles].
Proof.
  intros w cp Hrc.
  set (w' := World (git (listing_world w) status_args).2
               [EPrint MsgListing; ERun status_args (returncode cp);
                EPrint (MsgCommandFailed status_args);
                EPrint (MsgErrorInfo (decode (stderr cp)))]).
  assert (run_git_command decode git status_args (listing_world w)
          = (Ok None, w')) as Hrun.
  { rewrite run_git_command_run. fold cp. simpl.
    by destruct (Z.eqb_spec (returncode cp) 0). }
  assert (get_changed_files decode git (listing_world w) = (Ok [], w'))
    as Hget by (by rewrite get_changed_files_run, Hrun).
  pose proof (script_no_files cfg decode git w w' Hget) as Hscript.
  split; [by exists w'|].
  intros git' files' w0 cp' Hok Hout.
  set (w'' := World (git' (listing_world w0) status_args).2
                [EPrint MsgListing; ERun status_args 0]).
  assert (get_changed_files decode git' (listing_world w0) = (Ok [], w''))
    as Hget'.
  { rewrite get_changed_files_run, run_git_command_run.
    fold cp'. simpl. by rewrite Hok, Hout. }
  pose proof (script_no_files cfg decode git' w0 w'' Hget') as Hscript'.
  split; [by exists w''|].
  unfold listed. rewrite Hget, Hget', Hscript, Hscript'. done.
Qed.

(** *** A push that fails *)

(** C3.  When the push of batch [k + 1] (the [k]-th push of the run,
    counting from 0) exits with a non-zero status, the run ends with the
    exit status of success, so no exception reaches the top level;
    there are more than [k] batches; and the commands of the whole run
    are: the status query; add, commit and push, each exiting with 0,
    for the batches 1 to [k]; add and commit, exiting with 0, and the
    failed push for batch [k + 1]; and nothing after that: no later
    batch is staged, committed or pushed, and no command touches the
    commits already made.  The path-list file is gone. *)
Theorem push_failure_halts_the_run
    (cfg : config) (decode : bytes → str) (git : program)
    (files : gmap str str) (k : nat) (rc : Z) :
  let w := World files [] in
  let total := num_batches cfg (len (listed decode git w)) in
  push_codes (commands (trace (script cfg decode git w).2)) !! k = Some rc →
  rc ≠ 0 →
  (script cfg decode git w).1 = ExitSuccess
  ∧ Z.of_nat k < total
  ∧ commands (trace (script cfg decode git w).2)
    = (status_args, 0)
      :: flat_map
           (λ i, [(add_args, 0);
                  (commit_args (commit_message cfg i total), 0);
                  (push_args, 0)])
           (range (Z.of_nat k))
      ++ [(add_args, 0);
          (commit_args (commit_message cfg (Z.of_nat k) total), 0);
          (push_args, rc)]
  ∧ fs (script cfg decode git w).2 !! list_file = None.
Proof.
  intros w total Hpush Hrc.
  destruct (script_run cfg decode git w)
    as (rc0 & done & last & _ & Hall & Hcmd & _ & Hcases).
  fold total in Hcmd, Hcases. simpl in Hcmd.
  rewrite Hcmd in Hpush |- *.
  change ((status_args, rc0) :: ?l) with ([(status_args, rc0)] ++ l) in Hpush.
  rewrite push_codes_app in Hpush.
  assert (push_codes [(status_args, rc0)] = []) as Hst.
  { unfold push_codes. rewrite filter_cons_False; [done|].
    simpl. intros H. by apply push_not_status. }
  rewrite Hst in Hpush. simpl in Hpush.
  unfold loop_commands in Hpush. rewrite push_codes_app in Hpush.
  rewrite push_codes_pushed in Hpush.
  destruct Hcases as [(_ & -> & -> & _)
                     |[(_ & _ & -> & -> & _)
                      |(Hne & HB & Hexit & _ & Hsum & Hfs & _)]].
  1,2: by (unfold push_codes in Hpush; simpl in Hpush;
           rewrite lookup_nil in Hpush).
  destruct last as [o|].
  2:{ rewrite app_nil_r in Hpush.
      apply lookup_replicate_1 in Hpush as [-> _]. done. }
  destruct Hsum as (Hdone & Hgen & Hstop).
  rewrite length_range in Hdone.
  rewrite length_take_le in Hpush by (rewrite length_range; lia).
  rewrite lookup_range in Hpush by lia.
  rewrite push_codes_turn in Hpush.
  apply lookup_app_Some in Hpush as [Hzero|[Hge Hlast]].
  { apply lookup_replicate_1 in Hzero as [-> _]. done. }
  rewrite length_replicate in Hge, Hlast.
  destruct o as [rc1 err|rc1 err|rc1|];
    try (by rewrite lookup_nil in Hlast); [|done].
  apply list_lookup_singleton_Some in Hlast as [Hk ->].
  assert (k = done) as -> by lia.
  assert (rc0 = 0) as ->.
  { destruct (decide (rc0 = 0)); [done|]. by destruct Hne, Hall. }
  split; [done|]. split; [lia|]. split.
  - unfold loop_commands. rewrite take_range, lookup_range by lia. done.
  - apply Hfs. intros Hnil. apply (f_equal length) in Hnil.
    rewrite length_range in Hnil. simpl in Hnil. lia.
Qed.

(** *** A staging or commit command that fails *)

Lemma pushed_commands_exit_zero cfg total (turns : list Z) (c : list str * Z) :
  c ∈ flat_map (λ i, turn_commands cfg total i Pushed) turns → c.2 = 0.
Proof.
  induction turns as [|i turns IH]; cbn [flat_map].
  - by intros ?%not_elem_of_nil.
  - intros [Hin|Hin]%elem_of_app; [|by apply IH].
    simpl in Hin.
    repeat (apply elem_of_cons in Hin as [->|Hin]; [done|]).
    by apply not_elem_of_nil in Hin.
Qed.

(** C1, as the code has it.  When a staging command or a commit command
    exits with a non-zero status, the exception is caught by the
    [except Exception] clause of the loop, which prints it: the run goes
    on to its last line and ends with the exit status of success.  The
    failed command is the last command of the run, so that no commit
    follows a failed staging and nothing is pushed for that batch; and
    the path-list file is gone. *)
Theorem staging_or_commit_failure_is_caught
    (cfg : config) (decode : bytes → str) (git : program)
    (files : gmap str str) (args : list str) (rc : Z) :
  let w := World files [] in
  args = add_args ∨ (∃ msg, args = commit_args msg) →
  rc ≠ 0 →
  (args, rc) ∈ commands (trace (script cfg decode git w).2) →
  (script cfg decode git w).1 = ExitSuccess
  ∧ (∃ err, EPrint (MsgException (CalledProcessError rc args err))
            ∈ trace (script cfg decode git w).2)
  ∧ list.last (trace (script cfg decode git w).2) = Some (EPrint MsgFinished)
  ∧ list.last (commands (trace (script cfg decode git w).2)) = Some (args, rc)
  ∧ fs (script cfg decode git w).2 !! list_file = None.
Proof.
  intros w Hargs Hrc Hin.
  assert (args ≠ status_args ∧ args ≠ push_args) as [Hns Hnp].
  { destruct Hargs as [->|[msg ->]].
    - split; [apply add_not_status | apply add_not_push].
    - split; [apply commit_not_status | apply commit_not_push]. }
  destruct (script_run cfg decode git w)
    as (rc0 & done & last & _ & _ & Hcmd & _ & Hcases).
  simpl in Hcmd. rewrite Hcmd in Hin |- *.
  set (total := num_batches cfg (len (listed decode git w))) in *.
  apply elem_of_cons in Hin as [Hst|Hin]; [congruence|].
  destruct Hcases as [(_ & -> & -> & _)
                     |[(_ & _ & -> & -> & _)
                      |(_ & _ & Hexit & Hlast & Hsum & Hfs & _ & Hrep)]].
  1,2: by apply not_elem_of_nil in Hin.
  unfold loop_commands in Hin |- *.
  apply elem_of_app in Hin as [Hin|Hin].
  { apply pushed_commands_exit_zero in Hin. done. }
  destruct last as [o|]; [|by apply not_elem_of_nil in Hin].
  destruct Hsum as (Hdone & Hgen & Hstop).
  rewrite length_range in Hdone.
  specialize (Hrep o (Z.of_nat done)).
  rewrite lookup_range in Hin, Hrep |- * by lia.
  assert ((∃ err, raised cfg total (Z.of_nat done) o
                  = Some (CalledProcessError rc args err))
          ∧ list.last (turn_commands cfg total (Z.of_nat done) o)
            = Some (args, rc)) as [[err Hraised] Hturn].
  { destruct o as [rc1 err|rc1 err|rc1|]; simpl in Hin |- *.
    - apply list_elem_of_singleton in Hin as [= -> ->]. eauto.
    - apply elem_of_cons in Hin as [[= _ ->]|Hin]; [done|].
      apply list_elem_of_singleton in Hin as [= -> ->]. eauto.
    - repeat (apply elem_of_cons in Hin as [[= ? ?]|Hin]; [congruence|]).
      by apply not_elem_of_nil in Hin.
    - done. }
  split; [done|]. split; [exists err; by eapply Hrep|].
  split; [done|]. split.
  - by rewrite app_comm_cons, last_app, Hturn.
  - apply Hfs. intros Hnil. apply (f_equal length) in Hnil.
    rewrite length_range in Hnil. simpl in Hnil. lia.
Qed.

(** *** The order of the steps *)

(** C9.  The file writes and the commands of a run come one after the
    other in this order: the status query; then, for the batches in
    order and one batch at a time, the write of the path-list file of
    the batch, its staging, its commit and its push, each command being
    started only when the one before it has exited with 0.  [done]
    batches go through the four steps, and the batch after them, if the
    loop was stopped, goes as far as its first command that fails. *)
Theorem steps_run_in_sequence
    (cfg : config) (decode : bytes → str) (git : program)
    (files : gmap str str) :
  let w := World files [] in
  let all_files := listed decode git w in
  let total := num_batches cfg (len all_files) in
  ∃ rc done last,
    actions (trace (script cfg decode git w).2)
    = ERun status_args rc
      :: flat_map (λ i, turn_actions cfg all_files total i Pushed)
           (take done (range total))
      ++ match last, range total !! done with
         | Some o, Some i => turn_actions cfg all_files total i o
         | _, _ => []
         end
    ∧ (done ≤ length (range total))%nat
    ∧ ∀ o, last = Some o →
           genuine o ∧ stops o ∧ (done < length (range total))%nat.
Proof.
  intros w all_files total.
  destruct (script_run cfg decode git w)
    as (rc & done & last & _ & _ & _ & Hact & Hcases).
  fold all_files total in Hact, Hcases. simpl in Hact.
  exists rc, done, last. split; [exact Hact|].
  destruct Hcases as [(_ & -> & -> & _)
                     |[(_ & _ & -> & -> & _)
                      |(_ & _ & _ & _ & Hsum & _)]].
  1,2: split; [lia | done].
  destruct last as [o|].
  - destruct Hsum as (Hdone & Hgen & Hstop). split; [lia|].
    by intros ? [= <-].
  - split; [lia | done].
Qed.

(** *** The scenario of 1200 paths *)

(** C7.  With the constants of the source ([BATCH_SIZE = 500]) and 1200
    changed paths there are 3 batches, of 500, 500 and 200 paths, and the
    commit messages of the three turns are "Auto-batch commit: Part 1
    of 3", "... 2 of 3" and "... 3 of 3"; a run in which every command
    succeeds runs add, commit and push three times after the status
    query, with these messages. *)
Theorem scenario_1200_paths (all_files : list str) :
  len all_files = 1200 →
  num_batches default_config (len all_files) = 3
  ∧ map len (batches default_config all_files) = [500; 500; 200]
  ∧ map (λ i, commit_message default_config i 3) (range 3)
    = [lit "Auto-batch commit: Part 1 of 3";
       lit "Auto-batch commit: Part 2 of 3";
       lit "Auto-batch commit: Part 3 of 3"]
  ∧ ∀ (decode : bytes → str) (git : program) (files : gmap str str),
      listed decode git (World files []) = all_files →
      (∀ w args, returncode (git w args).1 = 0) →
      commands (trace (script default_config decode git (World files [])).2)
      = [(status_args, 0);
         (add_args, 0);
         (commit_args (lit "Auto-batch commit: Part 1 of 3"), 0);
         (push_args, 0);
         (add_args, 0);
         (commit_args (lit "Auto-batch commit: Part 2 of 3"), 0);
         (push_args, 0);
         (add_args, 0);
         (commit_args (lit "Auto-batch commit: Part 3 of 3"), 0);
         (push_args, 0)].
Proof.
  intros Hlen.
  assert (1 ≤ BATCH_SIZE default_config) as HB by done.
  split; [by rewrite Hlen|]. split; [|split; [reflexivity|]].
  - unfold batches. rewrite Hlen.
    change (range (num_batches default_config 1200)) with [0; 1; 2].
    cbn [map]. rewrite !(batch_files_len default_config HB), Hlen by (rewrite ?Hlen; done).
    reflexivity.
  - intros decode git files Hlisted Hok.
    destruct (script_run default_config decode git (World files []))
      as (rc & done & last & Hrc & _ & Hcmd & _ & Hcases).
    rewrite Hlisted, Hlen in Hcmd, Hcases. simpl in Hcmd.
    rewrite Hcmd, Hrc, Hok.
    destruct Hcases as [(-> & _)|[(_ & [=] & _)|(_ & _ & _ & _ & Hsum & _ & Hfail & _)]].
    { done. }
    destruct last as [o|].
    { destruct Hfail as (w0 & args & Hne); [by eexists|].
      by rewrite Hok in Hne. }
    rewrite Hsum. reflexivity.
Qed.

(* ===================================================================== *)
(** ** The properties at work on scripted runs *)
(* ===================================================================== *)

(** Five paths in batches of two; the push of the second batch fails. *)
Example run_push_fails_on_second_batch :
  let git := scripted_git five_files (fails_at "push" 1 1) in
  let out := script pairs_config utf8_decode_ignore git fresh in
  out.1 = ExitSuccess
  ∧ commands (trace out.2)
    = [(status_args, 0);
       (add_args, 0);
       (commit_args (lit "Auto-batch commit: Part 1 of 3"), 0);
       (push_args, 0);
       (add_args, 0);
       (commit_args (lit "Auto-batch commit: Part 2 of 3"), 0);
       (push_args, 1)].
Proof. split; reflexivity. Qed.

(** The same five paths, every command succeeding: the texts of the
    path-list file, and the file removed at the end. *)
Example run_all_pushed :
  let git := scripted_git five_files always_ok in
  let out := script pairs_config utf8_decode_ignore git fresh in
  out.1 = ExitSuccess
  ∧ omap (λ e, match e with EWrite _ text => Some text | _ => None end)
      (trace out.2)
    = [lit "a" ++ newline ++ lit "b" ++ newline;
       lit "c" ++ newline ++ lit "d" ++ newline;
       lit "e" ++ newline]
  ∧ fs out.2 = ∅.
Proof. repeat split; reflexivity. Qed.

(** Repeated entries are kept, entries without a path are skipped. *)
Example changed_paths_example :
  changed_paths_spec utf8_decode_ignore
    (blit " M x" ++ ["000"%byte] ++ blit "?? " ++ ["000"%byte]
       ++ blit " M x" ++ ["000"%byte] ++ blit "A  y z" ++ ["000"%byte])
  = [lit "x"; lit "x"; lit "y z"].
Proof. reflexivity. Qed.

(** C2 at work: five paths in batches of two. *)
Lemma partition_into_batches_witness :
  1 ≤ BATCH_SIZE pairs_config
  ∧ len (batches pairs_config five_paths) = 3
  ∧ concat (batches pairs_config five_paths) = five_paths.
Proof.
  assert (1 ≤ BATCH_SIZE pairs_config) as HB by (simpl; lia).
  destruct (partition_into_batches pairs_config five_paths HB)
    as (Hcount & _ & _ & _ & _ & Hconcat).
  split; [exact HB|]. split; [exact Hcount | exact Hconcat].
Defined.

(** C6 at work: a status query that prints nothing. *)
Lemma no_changes_no_commands_witness :
  let git := scripted_git [] always_ok in
  listed utf8_decode_ignore git (World ∅ []) = []
  ∧ (script pairs_config utf8_decode_ignore git (World ∅ [])).1 = ExitSuccess.
Proof.
  intros git.
  assert (listed utf8_decode_ignore git (World ∅ []) = []) as Hnone
    by reflexivity.
  split; [exact Hnone|].
  exact (proj1 (no_changes_no_commands pairs_config utf8_decode_ignore git ∅
                  Hnone)).
Defined.

(** C5 at work: a status query that exits with 128, next to one that
    prints nothing. *)
Lemma failed_status_query_reads_as_no_change_witness :
  let git := scripted_git five_files (fails_at "status" 0 128) in
  let git' := scripted_git [] always_ok in
  returncode (git (listing_world (World ∅ [])) status_args).1 ≠ 0
  ∧ returncode (git' (listing_world (World ∅ [])) status_args).1 = 0
  ∧ stdout (git' (listing_world (World ∅ [])) status_args).1 = []
  ∧ (script pairs_config utf8_decode_ignore git' (World ∅ [])).1
    = (script pairs_config utf8_decode_ignore git (World ∅ [])).1.
Proof.
  intros git git'.
  assert (returncode (git (listing_world (World ∅ [])) status_args).1 ≠ 0)
    as Hfail by (vm_compute; discriminate).
  assert (returncode (git' (listing_world (World ∅ [])) status_args).1 = 0)
    as Hok by reflexivity.
  assert (stdout (git' (listing_world (World ∅ [])) status_args).1 = [])
    as Hout by reflexivity.
  destruct (failed_status_query_reads_as_no_change pairs_config
              utf8_decode_ignore git ∅ Hfail) as [_ Hsame].
  destruct (Hsame git' ∅ Hok Hout) as (_ & _ & Hexit & _).
  repeat split; assumption.
Defined.

(** C5, as the claim has it, fails: with the constants of the source, a
    run whose status query exits with 128 and a run whose status query
    prints nothing get the same list and the same exit status, but do
    not print the same lines. *)
Lemma failed_status_query_is_told_apart :
  let out1 := script default_config utf8_decode_ignore git_status_fails fresh in
  let out2 := script default_config utf8_decode_ignore git_no_changes fresh in
  listed utf8_decode_ignore git_status_fails fresh = []
  ∧ listed utf8_decode_ignore git_no_changes fresh = []
  ∧ out1.1 = ExitSuccess ∧ out2.1 = ExitSuccess
  ∧ printed (trace out1.2)
    = [MsgListing; MsgCommandFailed status_args;
       MsgErrorInfo (lit "fatal: failed"); MsgNoFiles]
  ∧ printed (trace out2.2) = [MsgListing; MsgNoFiles]
  ∧ printed (trace out1.2) ≠ printed (trace out2.2).
Proof.
  intros out1 out2.
  assert (printed (trace out1.2)
          = [MsgListing; MsgCommandFailed status_args;
             MsgErrorInfo (lit "fatal: failed"); MsgNoFiles]) as H1
    by reflexivity.
  assert (printed (trace out2.2) = [MsgListing; MsgNoFiles]) as H2
    by reflexivity.
  repeat split; try reflexivity; try assumption.
  rewrite H1, H2. discriminate.
Qed.

(** C3 at work: the push of the second of three batches exits with 1. *)
Lemma push_failure_halts_the_run_witness :
  let git := scripted_git five_files (fails_at "push" 1 1) in
  let out := script pairs_config utf8_decode_ignore git (World ∅ []) in
  push_codes (commands (trace out.2)) !! 1%nat = Some 1
  ∧ 1 ≠ 0
  ∧ out.1 = ExitSuccess
  ∧ fs out.2 !! list_file = None.
Proof.
  intros git out.
  assert (push_codes (commands (trace out.2)) !! 1%nat = Some 1) as Hpush
    by (vm_compute; reflexivity).
  assert (1 ≠ 0) as Hrc by lia.
  destruct (push_failure_halts_the_run pairs_config utf8_decode_ignore git ∅
              1 1 Hpush Hrc) as (Hexit & _ & _ & Hfile).
  repeat split; assumption.
Defined.

(** C1, as the claim has it, fails: the staging of the first batch exits
    with 128, or its commit exits with 1, and the run still ends with
    the exit status of success, not with an unhandled exception. *)
Lemma staging_failure_is_not_fatal :
  let add_fails := scripted_git five_files (fails_at "add" 0 128) in
  let commit_fails := scripted_git five_files (fails_at "commit" 0 1) in
  let out1 := script pairs_config utf8_decode_ignore add_fails (World ∅ []) in
  let out2 := script pairs_config utf8_decode_ignore commit_fails (World ∅ []) in
  (commands (trace out1.2) = [(status_args, 0); (add_args, 128)]
   ∧ out1.1 = ExitSuccess
   ∧ ¬ ∃ e, out1.1 = ExitUnhandled e)
  ∧ (commands (trace out2.2)
     = [(status_args, 0); (add_args, 0);
        (commit_args (lit "Auto-batch commit: Part 1 of 3"), 1)]
     ∧ out2.1 = ExitSuccess
     ∧ ¬ ∃ e, out2.1 = ExitUnhandled e).
Proof.
  intros add_fails commit_fails out1 out2.
  assert (out1.1 = ExitSuccess) as H1 by reflexivity.
  assert (out2.1 = ExitSuccess) as H2 by reflexivity.
  split; (split; [reflexivity|]; split; [assumption|]).
  - intros [e He]. rewrite H1 in He. discriminate He.
  - intros [e He]. rewrite H2 in He. discriminate He.
Qed.

(** C1 as amended, at work: the staging of the second batch exits with
    128. *)
Lemma staging_or_commit_failure_is_caught_witness :
  let git := scripted_git five_files (fails_at "add" 1 128) in
  let out := script pairs_config utf8_decode_ignore git (World ∅ []) in
  (add_args = add_args ∨ ∃ msg, add_args = commit_args msg)
  ∧ 128 ≠ 0
  ∧ (add_args, 128) ∈ commands (trace out.2)
  ∧ out.1 = ExitSuccess
  ∧ list.last (commands (trace out.2)) = Some (add_args, 128)
  ∧ fs out.2 !! list_file = None.
Proof.
  intros git out.
  assert (add_args = add_args ∨ ∃ msg, add_args = commit_args msg) as Hargs
    by (left; reflexivity).
  assert (128 ≠ 0) as Hrc by lia.
  assert ((add_args, 128) ∈ commands (trace out.2)) as Hin
    by (refine (bool_decide_unpack _ _); vm_compute; exact I).
  destruct (staging_or_commit_failure_is_caught pairs_config
              utf8_decode_ignore git ∅ add_args 128 Hargs Hrc Hin)
    as (Hexit & _ & _ & Hlast & Hfile).
  repeat split; assumption.
Defined.

(** C7 at work: 1200 entries, every command succeeding. *)
Lemma scenario_1200_paths_witness :
  let git := scripted_git (many_status 1200) always_ok in
  len (many_paths 1200) = 1200
  ∧ listed utf8_decode_ignore git (World ∅ []) = many_paths 1200
  ∧ (∀ w args, returncode (git w args).1 = 0)
  ∧ map len (batches default_config (many_paths 1200)) = [500; 500; 200]
  ∧ length (commands
              (trace (script default_config utf8_decode_ignore git
                        (World ∅ [])).2)) = 10%nat.
Proof.
  intros git.
  assert (len (many_paths 1200) = 1200) as Hlen by (vm_compute; reflexivity).
  assert (listed utf8_decode_ignore git (World ∅ []) = many_paths 1200)
    as Hlisted by (vm_compute; reflexivity).
  assert (∀ w args, returncode (git w args).1 = 0) as Hok
    by (intros w args; reflexivity).
  destruct (scenario_1200_paths (many_paths 1200) Hlen)
    as (_ & Hsizes & _ & Hrun).
  split; [exact Hlen|]. split; [exact Hlisted|]. split; [exact Hok|].
  split; [exact Hsizes|].
  rewrite (Hrun utf8_decode_ignore git ∅ Hlisted Hok). reflexivity.
Defined.

(* ===================================================================== *)
(** ** Further properties of the script *)
(* ===================================================================== *)

(** *** [run_git_command] *)


(** *** Records of the status output *)

Lemma split_clean (sep : byte) (piece : bytes) :
  sep ∉ piece → split sep piece = [piece].
Proof.
  induction piece as [|b piece IH]; [done|].
  intros [Hb Hp]%not_elem_of_cons. simpl.
  destruct (Byte.eqb b sep) eqn:Heq.
  - apply Byte.byte_dec_bl in Heq. congruence.
  - by rewrite IH.
Qed.

Lemma split_app_sep (sep : byte) (piece rest : bytes) :
  sep ∉ piece →
  split sep (piece ++ sep :: rest) = piece :: split sep rest.
Proof.
  induction piece as [|b piece IH]; intros Hclean.
  - simpl. by rewrite (Byte.byte_dec_lb (eq_refl sep)).
  - apply not_elem_of_cons in Hclean as [Hb Hp]. simpl.
    destruct (Byte.eqb b sep) eqn:Heq.
    + apply Byte.byte_dec_bl in Heq. congruence.
    + by rewrite IH.
Qed.

(** Splitting undoes joining, for pieces that do not hold the
    separator. *)
Lemma split_join (sep : byte) (pieces : list bytes) :
  pieces ≠ [] → Forall (λ piece, sep ∉ piece) pieces →
  split sep (join sep pieces) = pieces.
Proof.
  induction pieces as [|piece pieces IH]; [done|].
  intros _ Hall. inversion Hall as [|? ? Hclean Hrest]; subst.
  destruct pieces as [|piece' pieces].
  - simpl. by apply split_clean.
  - change (join sep (piece :: piece' :: pieces))
      with (piece ++ sep :: join sep (piece' :: pieces)).
    rewrite split_app_sep by done. f_equal. by apply IH.
Qed.

Lemma terminated_join (records : list bytes) (tail : bytes) :
  terminated records ++ tail = join NUL (records ++ [tail]).
Proof.
  unfold terminated. induction records as [|r records IH]; [done|].
  cbn [map concat app]. rewrite <- !app_assoc, IH. simpl.
  by destruct (records ++ [tail]) eqn:E; [destruct records|].
Qed.

(** [split] yields one piece more than there are separators. *)
Lemma split_length (sep : byte) (data : list byte) :
  length (split sep data) = S (length (filter (λ b, b = sep) data)).
Proof.
  induction data as [|b data IH]; [done|]. cbn [split].
  destruct (Byte.eqb b sep) eqn:Heq.
  - apply Byte.byte_dec_bl in Heq as ->.
    rewrite filter_cons_True by done. cbn [length]. by rewrite IH.
  - rewrite filter_cons_False
      by (intros ->; by rewrite (Byte.byte_dec_lb (eq_refl sep)) in Heq).
    pose proof (split_nonempty sep data).
    destruct (split sep data); [done|]. simpl in *. done.
Qed.

(** The paths of an output made of clean records. *)
Lemma changed_paths_terminated
    (decode : bytes → str) (records : list bytes) (tail : bytes) :
  Forall (λ record, NUL ∉ record) records → NUL ∉ tail →
  changed_paths_spec decode (terminated records ++ tail)
  = filter (λ path, path ≠ [])
      (map (λ record, decode (drop 3 record))
         (filter (λ record, record ≠ []) (records ++ [tail]))).
Proof.
  intros Hrecords Htail.
  unfold changed_paths_spec. rewrite terminated_join.
  fold NUL. rewrite split_join; [done | by destruct records |].
  apply Forall_app. split; [done|]. by apply Forall_singleton.
Qed.

(** X2.  The records of the status output are taken one by one, in
    order: each record that ends with a null byte, and what follows the
    last null byte, loses its first three bytes, whatever they are, and
    the rest, decoded, is a path of the result unless it is empty.  A
    record is not checked for a status prefix: one that has none (as the
    origin of a rename, which git prints as a record of its own) comes
    out without its first three bytes. *)
Theorem enumerate_takes_records_in_order
    (decode : bytes → str) (git : program) (w : world)
    (records : list bytes) (tail : bytes) :
  Forall (λ record, NUL ∉ record) records → NUL ∉ tail →
  returncode (git w status_args).1 = 0 →
  stdout (git w status_args).1 = terminated records ++ tail →
  ∃ w',
    get_changed_files decode git w
    = (Ok (filter (λ path, path ≠ [])
             (map (λ record, decode (drop 3 record))
                (filter (λ record, record ≠ []) (records ++ [tail])))),
       w').
Proof.
  intros Hrecords Htail Hrc Hout.
  rewrite get_changed_files_run, run_git_command_run. simpl.
  rewrite Hrc, Hout. simpl. eexists.
  by rewrite changed_paths_terminated.
Qed.

(** X5.  Every path [get_changed_files] returns is non-empty, and there
    is at most one path for each null byte of the output, plus one for
    what follows the last null byte. *)
Theorem enumerate_paths_bounded
    (decode : bytes → str) (git : program) (w : world) :
  ∃ paths w',
    get_changed_files decode git w = (Ok paths, w')
    ∧ Forall (λ path, path ≠ []) paths
    ∧ (length paths
       ≤ S (length (filter (λ b, b = NUL) (stdout (git w status_args).1))))%nat.
Proof.
  rewrite get_changed_files_run, run_git_command_run. simpl.
  destruct (returncode (git w status_args).1 =? 0).
  - eexists _, _. split; [done|].
    split; [apply changed_paths_nonempty|].
    unfold changed_paths_spec, bytes. rewrite <- split_length.
    etrans; [apply length_filter|]. rewrite length_map. apply length_filter.
  - eexists _, _. split; [done|]. split; [done|]. simpl. lia.
Qed.

(** *** Names in ASCII, and bytes that are no UTF-8 *)

Lemma to_N_byte_of_ascii (a : ascii) : Byte.to_N (byte_of_ascii a) = N_of_ascii a.
Proof. apply Byte.to_of_N. symmetry. apply byte_of_ascii_via_N. Qed.

Lemma blit_cons (a : ascii) (name : string) :
  blit (String a name) = byte_of_ascii a :: blit name.
Proof. reflexivity. Qed.

(** The decoder leaves ASCII alone. *)
Lemma utf8_decode_plain (name : string) :
  plain name = true → utf8_decode_ignore (blit name) = lit name.
Proof.
  induction name as [|a name IH]; [done|].
  intros [Ha Hname]%andb_true_iff. rewrite blit_cons.
  cbn [utf8_decode_ignore lit]. rewrite to_N_byte_of_ascii.
  unfold plain_char in Ha. apply andb_true_iff in Ha as [_ Hlt].
  cbn zeta. rewrite Hlt. by rewrite IH.
Qed.

Lemma plain_no_NUL (name : string) : plain name = true → NUL ∉ blit name.
Proof.
  induction name as [|a name IH]; [intros _; apply not_elem_of_nil|].
  intros [Ha Hname]%andb_true_iff. rewrite blit_cons.
  apply not_elem_of_cons. split; [|by apply IH].
  intros Heq. apply (f_equal Byte.to_N) in Heq.
  rewrite to_N_byte_of_ascii in Heq.
  unfold plain_char in Ha. apply andb_true_iff in Ha as [Hpos _].
  apply N.ltb_lt in Hpos. rewrite <- Heq in Hpos. by vm_compute in Hpos.
Qed.

(** X3.  Round trip for names in ASCII: when the status output is a
    sequence of records, each a three-byte status prefix followed by a
    non-empty name in ASCII and a null byte, [get_changed_files] (with
    the UTF-8 decoder) returns exactly the names, in order, repetitions
    included. *)
Theorem enumerate_plain_names
    (git : program) (w : world) (entries : list (bytes * string)) :
  Forall (λ e, (length (e.1) = 3)%nat ∧ (NUL ∉ e.1)
               ∧ plain (e.2) = true ∧ (e.2) ≠ EmptyString) entries →
  returncode (git w status_args).1 = 0 →
  stdout (git w status_args).1
  = terminated (map (λ e, e.1 ++ blit e.2) entries) →
  ∃ w',
    get_changed_files utf8_decode_ignore git w
    = (Ok (map (λ e, lit e.2) entries), w').
Proof.
  intros Hentries Hrc Hout.
  rewrite get_changed_files_run, run_git_command_run. simpl.
  rewrite Hrc, Hout. simpl. eexists. f_equal. f_equal.
  rewrite <- (app_nil_r (terminated _)).
  rewrite changed_paths_terminated; [|
    | apply not_elem_of_nil].
  - unfold bytes in *.
    rewrite list.filter_app, (filter_cons_False _ [])
      by (intros H; by apply H).
    rewrite filter_nil, app_nil_r. clear Hout.
    induction Hentries as [|[st name] entries (Hlen & _ & Hplain & Hne) _ IH];
      [done|].
    simpl in Hlen, Hplain, Hne. cbn [map].
    rewrite filter_cons_True by (by destruct st).
    cbn [map]. rewrite drop_app_length' by done.
    rewrite utf8_decode_plain by done.
    rewrite filter_cons_True by (by destruct name).
    f_equal. exact IH.
  - apply Forall_forall. intros record Hin.
    apply list_elem_of_In, list_elem_of_fmap in Hin as ([st name] & -> & Hin).
    apply list_elem_of_In in Hin.
    rewrite Forall_forall in Hentries.
    destruct (Hentries _ Hin) as (_ & Hst & Hplain & _). simpl in *.
    apply not_elem_of_app. split; [done | by apply plain_no_NUL].
Qed.

(** Bytes none of which can start a sequence decode to the empty text. *)
Lemma utf8_decode_never_starts (data : bytes) :
  forallb never_starts data = true → utf8_decode_ignore data = [].
Proof.
  induction data as [|b0 rest IH]; [done|].
  intros [Hb0 Hrest]%andb_true_iff. specialize (IH Hrest).
  cbn [utf8_decode_ignore]. cbn zeta.
  unfold never_starts, in_range in Hb0.
  assert ((Byte.to_N b0 <? 0x80)%N = false
          ∧ in_range 0xC2 0xDF (Byte.to_N b0) = false
          ∧ in_range 0xE0 0xEF (Byte.to_N b0) = false
          ∧ in_range 0xF0 0xF4 (Byte.to_N b0) = false) as (H1 & H2 & H3 & H4).
  { unfold in_range.
    repeat match goal with
           | |- context [(?a <=? ?b)%N] => destruct (N.leb_spec a b)
           | |- context [(?a <? ?b)%N] => destruct (N.ltb_spec a b)
           | H : context [(?a <=? ?b)%N] |- _ => destruct (N.leb_spec a b)
           end; simpl in *; try done; lia. }
  rewrite H1. unfold two_ok, three_ok, four_ok. rewrite H2, H3, H4. simpl.
  destruct rest as [|b1 [|b2 [|b3 rest3]]]; done.
Qed.

(** X4.  A record whose path bytes are all continuation bytes or bytes
    that no UTF-8 sequence starts with gives no path: such records drop
    out of the list without a word, and the names of the others are
    kept. *)
Theorem undecodable_paths_are_skipped
    (git : program) (w : world) (records : list bytes) :
  Forall (λ record, NUL ∉ record) records →
  returncode (git w status_args).1 = 0 →
  stdout (git w status_args).1 = terminated records →
  ∃ w',
    get_changed_files utf8_decode_ignore git w
    = (Ok (filter (λ path, path ≠ [])
             (map (λ record, utf8_decode_ignore (drop 3 record))
                (filter (λ record, forallb never_starts (drop 3 record) = false)
                   records))),
       w').
Proof.
  intros Hrecords Hrc Hout.
  rewrite get_changed_files_run, run_git_command_run. simpl.
  rewrite Hrc, Hout. simpl. eexists. f_equal. f_equal.
  rewrite <- (app_nil_r (terminated _)).
  rewrite changed_paths_terminated by (done || apply not_elem_of_nil).
  unfold bytes in *.
  rewrite list.filter_app, (filter_cons_False _ []) by (intros H; by apply H).
  rewrite filter_nil, app_nil_r. clear Hrecords Hout.
  induction records as [|record records IH]; [done|].
  destruct (forallb never_starts (drop 3 record)) eqn:Hjunk.
  - rewrite (filter_cons_False (λ r, forallb _ _ = false))
      by (simpl; congruence).
    destruct record as [|b record].
    + by rewrite filter_cons_False by (intros H; by apply H).
    + rewrite filter_cons_True by done. cbn [map].
      rewrite (utf8_decode_never_starts _ Hjunk).
      by rewrite filter_cons_False by (intros H; by apply H).
  - rewrite (filter_cons_True (λ r, forallb _ _ = false)) by done.
    destruct record as [|b record]; [done|].
    rewrite filter_cons_True by done. cbn [map].
    destruct (utf8_decode_ignore (drop 3 (b :: record))) eqn:Hd.
    + rewrite !filter_cons_False by (intros H; by apply H). done.
    + rewrite !filter_cons_True by done. f_equal. exact IH.
Qed.

(** *** Batches, path-list texts and commit messages *)

(** X6.  For a batch size of at least 1, no turn of the loop gets an
    empty batch and none gets more than [BATCH_SIZE] paths; and when
    there are changed paths, but no more than [BATCH_SIZE], the only
    batch is the whole list. *)
Theorem batches_nonempty_and_bounded (cfg : config) (all_files : list str) :
  1 ≤ BATCH_SIZE cfg →
  Forall (λ batch, 1 ≤ len batch ≤ BATCH_SIZE cfg) (batches cfg all_files)
  ∧ (0 < len all_files ≤ BATCH_SIZE cfg → batches cfg all_files = [all_files]).
Proof.
  intros HB.
  pose proof (num_batches_ceiling cfg HB (len all_files)) as Hceil.
  split.
  - apply list.Forall_forall. intros batch Hin. unfold batches in Hin.
    apply list_elem_of_In, in_map_iff in Hin as (i & <- & Hi).
    apply list_elem_of_In, elem_of_seqZ in Hi.
    assert (i * BATCH_SIZE cfg ≤ (num_batches cfg (len all_files) - 1)
                                 * BATCH_SIZE cfg)
      by (apply Z.mul_le_mono_nonneg_r; lia).
    rewrite batch_files_len by lia. lia.
  - intros Hsmall.
    assert (num_batches cfg (len all_files) = 1) as HT by nia.
    unfold batches. rewrite HT.
    change (range 1) with [0]. cbn [map].
    rewrite batch_files_chunk by lia. simpl. rewrite drop_0.
    f_equal. apply take_ge. unfold len in *. lia.
Qed.

Lemma app_sep_inj {A} (sep : A) (p q r1 r2 : list A) :
  sep ∉ p → sep ∉ q → p ++ sep :: r1 = q ++ sep :: r2 → p = q ∧ r1 = r2.
Proof.
  revert q. induction p as [|x p IH]; intros [|y q] Hp Hq Heq; simpl in Heq.
  - by injection Heq as ->.
  - injection Heq as <- _. apply not_elem_of_cons in Hq as [[] _]. done.
  - injection Heq as -> _. apply not_elem_of_cons in Hp as [[] _]. done.
  - injection Heq as -> Heq.
    apply not_elem_of_cons in Hp as [_ Hp].
    apply not_elem_of_cons in Hq as [_ Hq].
    destruct (IH q Hp Hq Heq) as [-> ->]. done.
Qed.

Lemma file_text_cons (path : str) (batch : list str) :
  file_text (path :: batch) = path ++ 10%N :: file_text batch.
Proof.
  unfold file_text. rewrite !written_concat. cbn [map concat].
  unfold newline. by rewrite <- app_assoc.
Qed.

(** X7.  When no path of a batch holds a line feed, the text of the
    path-list file tells the batch: two such batches with the same text
    are the same batch. *)
Theorem path_list_text_injective_without_line_feeds (batch1 batch2 : list str) :
  Forall (λ path, 10%N ∉ path) batch1 →
  Forall (λ path, 10%N ∉ path) batch2 →
  file_text batch1 = file_text batch2 →
  batch1 = batch2.
Proof.
  intros H1. revert batch2.
  induction H1 as [|p batch1 Hp _ IH]; intros batch2 H2 Heq.
  - destruct batch2 as [|q batch2]; [done|].
    rewrite file_text_cons in Heq. change (file_text []) with (@nil N) in Heq.
    by destruct q.
  - destruct H2 as [|q batch2 Hq H2].
    + rewrite file_text_cons in Heq. change (file_text []) with (@nil N) in Heq.
      by destruct p.
    + rewrite !file_text_cons in Heq.
      apply app_sep_inj in Heq as [-> Heq]; [|done|done].
      f_equal. by apply IH.
Qed.

Lemma lit_inj (s1 s2 : string) : lit s1 = lit s2 → s1 = s2.
Proof.
  revert s2. induction s1 as [|a s1 IH]; intros [|b s2] Heq; try done.
  simpl in Heq. injection Heq as Hab Heq.
  apply (f_equal ascii_of_N) in Hab. rewrite !ascii_N_embedding in Hab.
  subst. f_equal. by apply IH.
Qed.

Lemma to_int_not_nil (n : Z) :
  Z.to_int n ≠ Decimal.Pos Decimal.Nil ∧ Z.to_int n ≠ Decimal.Neg Decimal.Nil.
Proof.
  split; intros Heq;
    (assert (n = 0) as ->
       by (apply (f_equal Z.of_int) in Heq; by rewrite DecimalZ.of_to in Heq));
    vm_compute in Heq; discriminate Heq.
Qed.

(** The decimal rendering of integers is one to one. *)
Lemma str_of_int_inj (n m : Z) : str_of_int n = str_of_int m → n = m.
Proof.
  unfold str_of_int. intros Heq%lit_inj.
  apply (f_equal NilZero.int_of_string) in Heq.
  destruct (to_int_not_nil n), (to_int_not_nil m).
  rewrite !NilZero.isi in Heq by done.
  injection Heq as Heq. by apply DecimalZ.to_int_inj.
Qed.

(** X8.  Within a run, the commit messages of different turns are
    different: the message tells the turn. *)
Theorem commit_message_tells_the_turn (cfg : config) (i j num_batches : Z) :
  commit_message cfg i num_batches = commit_message cfg j num_batches →
  i = j.
Proof.
  unfold commit_message. intros Heq.
  apply app_inv_head, app_inv_head in Heq.
  apply app_inv_tail in Heq. apply str_of_int_inj in Heq. lia.
Qed.

(** *** Whole runs *)

Lemma writes_app (tr1 tr2 : list event) :
  writes (tr1 ++ tr2) = writes tr1 ++ writes tr2.
Proof. induction tr1 as [|[] tr1 IH]; simpl; by rewrite ?IH. Qed.

Lemma writes_actions (tr : list event) : writes (actions tr) = writes tr.
Proof. induction tr as [|[] tr IH]; simpl; by rewrite ?IH. Qed.

Lemma writes_turn_actions cfg all_files total (turns : list Z) :
  writes (flat_map (λ i, turn_actions cfg all_files total i Pushed) turns)
  = map (λ i, file_text (batch_files cfg all_files i)) turns.
Proof.
  induction turns as [|i turns IH]; [done|].
  cbn [flat_map map]. rewrite writes_app, IH. done.
Qed.

Lemma file_text_concat (bs : list (list str)) :
  concat (map file_text bs) = file_text (concat bs).
Proof.
  unfold file_text. induction bs as [|b bs IH]; [done|].
  cbn [map concat]. rewrite IH, !written_concat, map_app, concat_app. done.
Qed.

(** X9.  The exit status of a run, whatever git does: success, unless
    the batch size is 0 and there are changes to commit; the division
    then raises [ZeroDivisionError], which nothing catches, after the
    status query and before anything is written or staged.  With the
    constants of the source every run ends with success. *)
Theorem exit_status_of_a_run
    (cfg : config) (decode : bytes → str) (git : program) (w : world) :
  (script cfg decode git w).1
  = (if bool_decide (BATCH_SIZE cfg = 0 ∧ listed decode git w ≠ [])
     then ExitUnhandled ZeroDivisionError else ExitSuccess)
  ∧ (BATCH_SIZE cfg = 0 → listed decode git w ≠ [] →
     commands (trace (script cfg decode git w).2)
     = commands (trace w) ++ [(status_args, 0)]
     ∧ writes (trace (script cfg decode git w).2) = writes (trace w))
  ∧ (script default_config decode git w).1 = ExitSuccess.
Proof.
  split; [|split].
  - destruct (script_run cfg decode git w)
      as (rc & done & last & _ & _ & _ & _ & Hcases).
    destruct Hcases as [(Hnil & _ & _ & -> & _)
                       |[(Hne & HB & _ & _ & ->)|(Hne & HB & -> & _)]].
    + rewrite bool_decide_eq_false_2; [done|]. by intros [_ []].
    + by rewrite bool_decide_eq_true_2.
    + rewrite bool_decide_eq_false_2; [done|]. by intros [? _].
  - intros HB Hne.
    destruct (script_run cfg decode git w)
      as (rc & done & last & _ & Hrc & Hcmd & Hact & Hcases).
    destruct Hcases as [(Hnil & _)
                       |[(_ & _ & -> & -> & _)|(_ & HB' & _)]]; [done| |done].
    assert (rc = 0) as ->.
    { destruct (decide (rc = 0)); [done|]. by destruct Hne, Hrc. }
    split; [exact Hcmd|].
    rewrite <- writes_actions, Hact, writes_app, writes_actions. simpl.
    by rewrite app_nil_r.
  - destruct (script_run default_config decode git w)
      as (rc & done & last & _ & _ & _ & _ & Hcases).
    by destruct Hcases as [(_ & _ & _ & -> & _)
                          |[(_ & [=] & _)|(_ & _ & -> & _)]].
Qed.

(** A turn of the loop, for a git that leaves the files alone: the
    path-list file is gone, the other files are as they were. *)
Lemma process_batch_files cfg (git : program) all_files total i (w : world) :
  (∀ w0 args, (git w0 args).2 = fs w0) →
  fs (process_batch cfg git all_files total i w).2 = delete list_file (fs w).
Proof.
  intros Hframe.
  unfold process_batch, try_finally, try_except, attempt.
  unfold mbind, M_bind, print, write_file, subprocess_run. simpl.
  repeat match goal with
         | |- context [git ?w0 ?args] =>
             let cp := fresh "cp" in
             let f := fresh "f" in
             let E := fresh "E" in
             pose proof (Hframe w0 args) as E;
             destruct (git w0 args) as [cp f]; simpl in E; subst f;
             destruct (returncode cp =? 0); simpl
         end;
    match goal with |- context [cleanup ?w0] =>
      destruct (cleanup_run w0) as [removed ->] end;
    simpl; apply delete_insert_eq.
Qed.

Lemma for_each_files cfg (git : program) all_files total turns (w : world) :
  (∀ w0 args, (git w0 args).2 = fs w0) →
  fs (for_each turns (process_batch cfg git all_files total) w).2
  = match turns with [] => fs w | _ => delete list_file (fs w) end.
Proof.
  intros Hframe. revert w. induction turns as [|i turns IH]; intros w; [done|].
  pose proof (process_batch_files cfg git all_files total i w Hframe) as Hfs.
  destruct (process_batch_run cfg git all_files total i w)
    as (o & removed & w1 & Hrun & _).
  rewrite Hrun in Hfs. simpl in Hfs.
  simpl. unfold mbind, M_bind. rewrite Hrun.
  destruct o; simpl; try done.
  rewrite IH, Hfs. destruct turns; [done|]. apply delete_delete_eq.
Qed.

(** X10.  With a batch size of at least 1 and a git that leaves the
    files alone, a run changes no file but the path-list file: when no
    change is listed the files are as before the run; otherwise they are
    as before but for [temp_batch_list.txt], which is gone, also when
    there was a file of that name before the run. *)
Theorem run_touches_only_the_path_list_file
    (cfg : config) (decode : bytes → str) (git : program) (w : world) :
  1 ≤ BATCH_SIZE cfg →
  (∀ w0 args, (git w0 args).2 = fs w0) →
  fs (script cfg decode git w).2
  = if bool_decide (listed decode git w = []) then fs w
    else delete list_file (fs w).
Proof.
  intros HB Hframe. unfold listed, script, main.
  rewrite print_bind. fold (listing_world w). rewrite bind_run.
  destruct (get_changed_files_total decode git (listing_world w))
    as (all_files & w2 & rc & -> & _ & _ & _ & Hfs & _).
  rewrite Hframe in Hfs. simpl in Hfs. cbv beta iota zeta.
  destruct all_files as [|path all_files].
  - by rewrite bool_decide_eq_true_2.
  - rewrite bool_decide_eq_false_2 by done.
    set (all := path :: all_files).
    assert (0 < len all) as Hlen by (unfold len; simpl; lia).
    assert ((len all =? 0) = false) as -> by (apply Z.eqb_neq; lia).
    rewrite print_bind. unfold floordiv.
    assert ((BATCH_SIZE cfg =? 0) = false) as -> by (apply Z.eqb_neq; lia).
    rewrite ret_bind. fold (num_batches cfg (len all)). rewrite bind_run.
    match goal with |- context [for_each ?turns ?body ?w0] =>
      pose proof (for_each_files cfg git all (num_batches cfg (len all))
                    turns w0 Hframe) as Hloop;
      destruct (for_each_run cfg git all (num_batches cfg (len all)) turns w0)
        as (evs & w3 & done & last & Hrun & _) end.
    rewrite Hrun in Hloop |- *. simpl in Hloop |- *. rewrite Hloop, Hfs.
    pose proof (num_batches_ceiling cfg HB (len all)) as Hceil.
    destruct (range (num_batches cfg (len all))) eqn:Hturns; [|done].
    apply (f_equal length) in Hturns. rewrite length_range in Hturns.
    simpl in Hturns. nia.
Qed.

(** X11.  In a run in which every command exits with 0, with a batch
    size of at least 1, the path-list file is written once for each
    batch, with the text of that batch; the texts, one after the other,
    are the lines of all the changed paths in the order of the status
    output, so that every path is staged once; and after the status
    query each batch in turn is added, committed and pushed. *)
Theorem successful_run_stages_every_path_once
    (cfg : config) (decode : bytes → str) (git : program)
    (files : gmap str str) :
  1 ≤ BATCH_SIZE cfg →
  (∀ w0 args, returncode (git w0 args).1 = 0) →
  let w := World files [] in
  let all_files := listed decode git w in
  let total := num_batches cfg (len all_files) in
  writes (trace (script cfg decode git w).2)
  = map file_text (batches cfg all_files)
  ∧ concat (writes (trace (script cfg decode git w).2))
    = file_text all_files
  ∧ commands (trace (script cfg decode git w).2)
    = (status_args, 0)
      :: flat_map
           (λ i, [(add_args, 0);
                  (commit_args (commit_message cfg i total), 0);
                  (push_args, 0)])
           (range total).
Proof.
  intros HB Hok w all_files total.
  destruct (script_run cfg decode git w)
    as (rc & done & last & Hrc & _ & Hcmd & Hact & Hcases).
  fold all_files total in Hcmd, Hact, Hcases. simpl in Hcmd, Hact.
  rewrite Hok in Hrc. subst rc.
  assert (last = None ∧ take done (range total) = range total)
    as [-> Htake].
  { destruct Hcases as [(Hnil & -> & -> & _)
                       |[(_ & HB0 & _)|(_ & _ & _ & _ & Hsum & _ & Hfail & _)]].
    - split; [done|]. subst total. rewrite Hnil.
      assert (num_batches cfg (len (@nil str)) = 0) as ->; [|done].
      pose proof (num_batches_ceiling cfg HB (len (@nil str))).
      change (len (@nil str)) with 0 in *. nia.
    - lia.
    - destruct last as [o|].
      + destruct Hfail as (w0 & args & Hne); [by eexists|].
        by rewrite Hok in Hne.
      + split; [done|]. rewrite Hsum. apply take_ge. lia. }
  assert (writes (trace (script cfg decode git w).2)
          = map file_text (batches cfg all_files)) as Hwrites.
  { rewrite <- writes_actions, Hact. unfold loop_actions.
    rewrite Htake. simpl. rewrite app_nil_r, writes_turn_actions.
    unfold batches. by rewrite map_map. }
  split; [done|]. split.
  - rewrite Hwrites, file_text_concat. f_equal. by apply batches_concat.
  - rewrite Hcmd. unfold loop_commands. rewrite Htake.
    destruct (range total !! done); by rewrite app_nil_r.
Qed.

(** Counting the commands of a list. *)
Lemma attempted_app sub (c1 c2 : list (list str * Z)) :
  attempted sub (c1 ++ c2) = (attempted sub c1 + attempted sub c2)%nat.
Proof. unfold attempted. by rewrite list.filter_app, length_app. Qed.

Lemma succeeded_app sub (c1 c2 : list (list str * Z)) :
  succeeded sub (c1 ++ c2) = (succeeded sub c1 + succeeded sub c2)%nat.
Proof. unfold succeeded. by rewrite list.filter_app, length_app. Qed.

Lemma attempted_nil sub : attempted sub [] = 0%nat.
Proof. reflexivity. Qed.

Lemma succeeded_nil sub : succeeded sub [] = 0%nat.
Proof. reflexivity. Qed.

Ltac count_commands :=
  unfold attempted, succeeded;
  repeat first
    [ rewrite filter_nil
    | rewrite filter_cons_True
        by (cbn [fst snd]; first [reflexivity | split; [reflexivity | done]])
    | rewrite filter_cons_False
        by (cbn [fst snd];
            first [ intros [H ?]; vm_compute in H; discriminate H
                  | intros [_ ?]; done
                  | intros H; vm_compute in H; discriminate H ]) ];
  cbn [length].

(** The counts of one turn: staged once; committed unless staging or the
    commit failed; pushed when nothing failed. *)
Lemma counts_of_turn cfg total i o :
  genuine o →
  attempted (lit "add") (turn_commands cfg total i o) = 1%nat
  ∧ attempted (lit "status") (turn_commands cfg total i o) = 0%nat
  ∧ succeeded (lit "commit") (turn_commands cfg total i o)
    = match o with PushFailed _ | Pushed => 1%nat | _ => 0%nat end
  ∧ succeeded (lit "push") (turn_commands cfg total i o)
    = match o with Pushed => 1%nat | _ => 0%nat end.
Proof.
  intros Hgen.
  destruct o; simpl in Hgen; cbn [turn_commands];
    repeat split; by count_commands.
Qed.

Lemma counts_of_pushed_turns cfg total (turns : list Z) :
  let cmds := flat_map (λ i, turn_commands cfg total i Pushed) turns in
  attempted (lit "add") cmds = length turns
  ∧ attempted (lit "status") cmds = 0%nat
  ∧ succeeded (lit "commit") cmds = length turns
  ∧ succeeded (lit "push") cmds = length turns.
Proof.
  induction turns as [|i turns (IH1 & IH2 & IH3 & IH4)]; [done|].
  cbn zeta in *. cbn [flat_map]. 
  destruct (counts_of_turn cfg total i Pushed I) as (H1 & H2 & H3 & H4).
  rewrite !attempted_app, !succeeded_app, H1, H2, H3, H4, IH1, IH2, IH3, IH4.
  done.
Qed.

(** Lists of commands in step. *)
Lemma in_step_app (c1 c2 : list (list str * Z)) :
  in_step c1 → in_step c2 → starts_clean c2 → in_step (c1 ++ c2).
Proof.
  intros H1 H2 Hclean n c Hlook.
  destruct (decide (S n < length c1)%nat) as [Hin|Hout].
  - rewrite lookup_app_l in Hlook |- * by lia. by apply H1.
  - destruct (decide (S n = length c1)) as [Heq|Hne].
    + rewrite lookup_app_r, Heq, Nat.sub_diag in Hlook by lia.
      destruct c2 as [|c' c2]; [done|]. injection Hlook as ->.
      destruct (Hclean c eq_refl) as [Hc Hp]. by split.
    + rewrite lookup_app_r in Hlook by lia.
      rewrite (lookup_app_r _ _ n) by lia.
      replace (S n - length c1)%nat with (S (n - length c1)) in Hlook by lia.
      by apply H2.
Qed.

Lemma in_step_turn cfg total i o :
  genuine o → in_step (turn_commands cfg total i o).
Proof.
  intros Hgen n c Hlook.
  destruct o; cbn [turn_commands] in *;
    destruct n as [|[|n]]; simpl in Hlook; try done;
    injection Hlook as <-; cbn [fst snd];
    rewrite ?subcommand_commit, ?subcommand_push;
    split; intros Hsub; try (vm_compute in Hsub; discriminate Hsub);
    first [reflexivity | eexists; reflexivity].
Qed.

Lemma starts_clean_nil : starts_clean [].
Proof. by intros c. Qed.

Lemma starts_clean_turn cfg total i o rest :
  starts_clean (turn_commands cfg total i o ++ rest).
Proof.
  intros c Hhead.
  assert (c.1 = add_args) as Hc by (destruct o; by injection Hhead as <-).
  rewrite Hc, subcommand_add. split; intros H; vm_compute in H; discriminate H.
Qed.

Lemma in_step_loop cfg total (turns : list Z) (rest : list (list str * Z)) :
  in_step rest → starts_clean rest →
  in_step (flat_map (λ i, turn_commands cfg total i Pushed) turns ++ rest)
  ∧ starts_clean
      (flat_map (λ i, turn_commands cfg total i Pushed) turns ++ rest).
Proof.
  intros Hrest Hclean. induction turns as [|i turns [IH1 IH2]]; [done|].
  cbn [flat_map]. rewrite <- app_assoc. split.
  - apply in_step_app; [by apply in_step_turn | done | done].
  - apply starts_clean_turn.
Qed.

(** The counts of a run. *)
Lemma run_command_counts
    (cfg : config) (decode : bytes → str) (git : program)
    (files : gmap str str) :
  let w := World files [] in
  let total := num_batches cfg (len (listed decode git w)) in
  let cmds := commands (trace (script cfg decode git w).2) in
  attempted (lit "status") cmds = 1%nat
  ∧ (attempted (lit "add") cmds ≤ Z.to_nat total)%nat
  ∧ (succeeded (lit "commit") cmds ≤ attempted (lit "add") cmds)%nat
  ∧ (succeeded (lit "push") cmds ≤ succeeded (lit "commit") cmds)%nat
  ∧ (succeeded (lit "commit") cmds ≤ succeeded (lit "push") cmds + 1)%nat.
Proof.
  intros w total cmds. subst cmds.
  destruct (script_run cfg decode git w)
    as (rc & done & last & _ & _ & Hcmd & _ & Hcases).
  fold total in Hcmd, Hcases. simpl in Hcmd. rewrite Hcmd.
  change ((status_args, rc) :: ?l) with ([(status_args, rc)] ++ l).
  unfold loop_commands.
  rewrite !attempted_app, !succeeded_app.
  destruct (counts_of_pushed_turns cfg total (take done (range total)))
    as (Ha & Hs & Hc & Hp).
  rewrite Ha, Hs, Hc, Hp.
  assert (attempted (lit "status") [(status_args, rc)] = 1%nat
          ∧ attempted (lit "add") [(status_args, rc)] = 0%nat
          ∧ succeeded (lit "commit") [(status_args, rc)] = 0%nat
          ∧ succeeded (lit "push") [(status_args, rc)] = 0%nat)
    as (-> & -> & -> & ->) by (repeat split; by count_commands).
  rewrite length_take, length_range.
  destruct Hcases as [(_ & -> & -> & _)
                     |[(_ & _ & -> & -> & _)
                      |(_ & _ & _ & _ & Hsum & _)]].
  1,2: cbv beta iota; cbn [Nat.min];
       rewrite ?attempted_nil, ?succeeded_nil; lia.
  destruct last as [o|].
  - destruct Hsum as (Hdone & Hgen & _). rewrite length_range in Hdone.
    rewrite lookup_range by lia.
    destruct (counts_of_turn cfg total (Z.of_nat done) o Hgen)
      as (-> & -> & -> & ->).
    destruct o; lia.
  - rewrite length_range in Hsum.
    rewrite ?attempted_nil, ?succeeded_nil. lia.
Qed.

(** The commands of a run are in step, after the status query. *)
Lemma run_commands_in_step
    (cfg : config) (decode : bytes → str) (git : program)
    (files : gmap str str) :
  let cmds := commands (trace (script cfg decode git (World files [])).2) in
  (∃ rc, head cmds = Some (status_args, rc)) ∧ in_step cmds.
Proof.
  intros cmds. subst cmds.
  destruct (script_run cfg decode git (World files []))
    as (rc & done & last & _ & _ & Hcmd & _ & Hcases).
  simpl in Hcmd. rewrite Hcmd. split; [by exists rc|].
  set (total := num_batches cfg (len (listed decode git (World files [])))) in *.
  change ((status_args, rc) :: ?l) with ([(status_args, rc)] ++ l).
  unfold loop_commands.
  destruct (in_step_loop cfg total (take done (range total))
              (match last, range total !! done with
               | Some o, Some i => turn_commands cfg total i o
               | _, _ => []
               end)) as [Hloop Hclean].
  - destruct last as [o|], (range total !! done) as [i|];
      try (by intros n c Hlook; destruct n).
    apply in_step_turn.
    destruct Hcases as [(_ & _ & [=] & _)
                       |[(_ & _ & _ & [=] & _)
                        |(_ & _ & _ & _ & Hsum & _)]].
    by destruct Hsum as (_ & ? & _).
  - destruct last as [o|], (range total !! done) as [i|];
      try apply starts_clean_nil.
    rewrite <- (app_nil_r (turn_commands _ _ _ _)).
    apply starts_clean_turn.
  - apply in_step_app; [by intros [|n] c Hlook | done | done].
Qed.

(** X12.  In every run, whatever git does: the status query is the first
    command and is run once; no more batches are staged than there are
    batches; every commit comes right after a staging that exited with
    0, which is the staging of its own batch, and every push right after
    a commit that exited with 0; and, of the commits that succeeded, all
    are pushed but at most one, so that the script never leaves more
    than one commit of its own unpushed. *)
Theorem at_most_one_commit_left_unpushed
    (cfg : config) (decode : bytes → str) (git : program)
    (files : gmap str str) :
  let w := World files [] in
  let total := num_batches cfg (len (listed decode git w)) in
  let cmds := commands (trace (script cfg decode git w).2) in
  attempted (lit "status") cmds = 1%nat
  ∧ (attempted (lit "add") cmds ≤ Z.to_nat total)%nat
  ∧ (succeeded (lit "commit") cmds ≤ attempted (lit "add") cmds)%nat
  ∧ (succeeded (lit "push") cmds ≤ succeeded (lit "commit") cmds)%nat
  ∧ (succeeded (lit "commit") cmds ≤ succeeded (lit "push") cmds + 1)%nat
  ∧ (∃ rc, head cmds = Some (status_args, rc))
  ∧ (∀ (n : nat) (c : list str * Z),
       cmds !! S n = Some c →
       (subcommand c.1 = lit "commit" → cmds !! n = Some (add_args, 0))
       ∧ (subcommand c.1 = lit "push" →
          ∃ msg, cmds !! n = Some (commit_args msg, 0))).
Proof.
  intros w total cmds.
  destruct (run_command_counts cfg decode git files)
    as (H1 & H2 & H3 & H4 & H5).
  destruct (run_commands_in_step cfg decode git files) as [Hhead Hstep].
  repeat split; try assumption.
  - intros Hsub. by apply (Hstep n c).
  - intros Hsub. by apply (Hstep n c).
Qed.

(** *** The further properties at work on scripted runs *)

Ltac decide_by_evaluation :=
  refine (bool_decide_unpack _ _); vm_compute; exact I.


(** X2 at work: the origin of a rename loses its first three bytes. *)
Lemma enumerate_takes_records_in_order_witness :
  let git := scripted_git (terminated rename_records) always_ok in
  Forall (λ record, NUL ∉ record) rename_records
  ∧ ∃ w', get_changed_files utf8_decode_ignore git fresh
          = (Ok [lit "new"; lit ".txt"], w').
Proof.
  intros git.
  assert (Forall (λ record, NUL ∉ record) rename_records) as Hclean
    by decide_by_evaluation.
  assert (NUL ∉ @nil byte) as Htail by decide_by_evaluation.
  assert (returncode (git fresh status_args).1 = 0) as Hrc by reflexivity.
  assert (stdout (git fresh status_args).1 = terminated rename_records ++ [])
    as Hout by reflexivity.
  split; [exact Hclean|].
  exact (enumerate_takes_records_in_order utf8_decode_ignore git fresh
           rename_records [] Hclean Htail Hrc Hout).
Defined.

(** X3 at work. *)
Lemma enumerate_plain_names_witness :
  let git :=
    scripted_git (terminated (map (λ e, e.1 ++ blit e.2) plain_entries))
      always_ok in
  ∃ w', get_changed_files utf8_decode_ignore git fresh
        = (Ok [lit "a"; lit "b c"], w').
Proof.
  intros git.
  assert (Forall (λ e : bytes * string,
                    (length (e.1) = 3)%nat ∧ (NUL ∉ e.1)
                    ∧ plain (e.2) = true ∧ (e.2) ≠ EmptyString)
            plain_entries) as Hentries.
  { repeat constructor; simpl; try discriminate; decide_by_evaluation. }
  assert (returncode (git fresh status_args).1 = 0) as Hrc by reflexivity.
  assert (stdout (git fresh status_args).1
          = terminated (map (λ e, e.1 ++ blit e.2) plain_entries))
    as Hout by reflexivity.
  exact (enumerate_plain_names git fresh plain_entries Hentries Hrc Hout).
Defined.

(** X4 at work: the entry whose name is no UTF-8 is not listed. *)
Lemma undecodable_paths_are_skipped_witness :
  let git := scripted_git (terminated mixed_records) always_ok in
  Forall (λ record, NUL ∉ record) mixed_records
  ∧ ∃ w', get_changed_files utf8_decode_ignore git fresh
          = (Ok [lit "ok"], w').
Proof.
  intros git.
  assert (Forall (λ record, NUL ∉ record) mixed_records) as Hclean
    by decide_by_evaluation.
  assert (returncode (git fresh status_args).1 = 0) as Hrc by reflexivity.
  assert (stdout (git fresh status_args).1 = terminated mixed_records)
    as Hout by reflexivity.
  split; [exact Hclean|].
  exact (undecodable_paths_are_skipped git fresh mixed_records
           Hclean Hrc Hout).
Defined.

(** X6 at work: five paths in batches of two. *)
Lemma batches_nonempty_and_bounded_witness :
  1 ≤ BATCH_SIZE pairs_config
  ∧ Forall (λ batch, 1 ≤ len batch ≤ BATCH_SIZE pairs_config)
      (batches pairs_config five_paths).
Proof.
  assert (1 ≤ BATCH_SIZE pairs_config) as HB by (simpl; lia).
  split; [exact HB|].
  exact (proj1 (batches_nonempty_and_bounded pairs_config five_paths HB)).
Defined.

(** X7 at work. *)
Lemma path_list_text_injective_without_line_feeds_witness :
  Forall (λ path, 10%N ∉ path) five_paths
  ∧ file_text five_paths = file_text five_paths
  ∧ five_paths = five_paths.
Proof.
  assert (Forall (λ path : str, 10%N ∉ path) five_paths) as Hclean
    by decide_by_evaluation.
  assert (file_text five_paths = file_text five_paths) as Htext
    by reflexivity.
  split; [exact Hclean|]. split; [exact Htext|].
  exact (path_list_text_injective_without_line_feeds five_paths five_paths
           Hclean Hclean Htext).
Defined.

(** X8 at work. *)
Lemma commit_message_tells_the_turn_witness :
  commit_message default_config 1 3 = commit_message default_config 1 3
  ∧ 1 = 1.
Proof.
  assert (commit_message default_config 1 3 = commit_message default_config 1 3)
    as Hmsg by reflexivity.
  split; [exact Hmsg|].
  exact (commit_message_tells_the_turn default_config 1 1 3 Hmsg).
Defined.

(** X9 at work: a batch size of zero and five changes. *)
Lemma exit_status_of_a_run_witness :
  let git := scripted_git five_files always_ok in
  BATCH_SIZE zero_config = 0
  ∧ listed utf8_decode_ignore git fresh ≠ []
  ∧ (script zero_config utf8_decode_ignore git fresh).1
    = ExitUnhandled ZeroDivisionError
  ∧ commands (trace (script zero_config utf8_decode_ignore git fresh).2)
    = [(status_args, 0)].
Proof.
  intros git.
  assert (BATCH_SIZE zero_config = 0) as HB by reflexivity.
  assert (listed utf8_decode_ignore git fresh ≠ []) as Hne
    by (vm_compute; discriminate).
  destruct (exit_status_of_a_run zero_config utf8_decode_ignore git fresh)
    as (Hexit & Hzero & _).
  destruct (Hzero HB Hne) as [Hcmd _].
  split; [exact HB|]. split; [exact Hne|]. split; [|exact Hcmd].
  rewrite Hexit. reflexivity.
Defined.

(** X10 at work: a file named as the path-list file is lost. *)
Lemma run_touches_only_the_path_list_file_witness :
  let git := scripted_git five_files always_ok in
  1 ≤ BATCH_SIZE pairs_config
  ∧ (∀ w0 args, (git w0 args).2 = fs w0)
  ∧ fs occupied !! list_file = Some (lit "precious")
  ∧ fs (script pairs_config utf8_decode_ignore git occupied).2 = ∅.
Proof.
  intros git.
  assert (1 ≤ BATCH_SIZE pairs_config) as HB by (simpl; lia).
  assert (∀ w0 args, (git w0 args).2 = fs w0) as Hframe
    by (intros w0 args; reflexivity).
  split; [exact HB|]. split; [exact Hframe|]. split; [reflexivity|].
  rewrite (run_touches_only_the_path_list_file pairs_config
             utf8_decode_ignore git occupied HB Hframe).
  reflexivity.
Defined.

(** X11 at work: five paths in batches of two, every command
    succeeding. *)
Lemma successful_run_stages_every_path_once_witness :
  let git := scripted_git five_files always_ok in
  1 ≤ BATCH_SIZE pairs_config
  ∧ (∀ w0 args, returncode (git w0 args).1 = 0)
  ∧ concat (writes (trace (script pairs_config utf8_decode_ignore git
                             (World ∅ [])).2))
    = file_text five_paths.
Proof.
  intros git.
  assert (1 ≤ BATCH_SIZE pairs_config) as HB by (simpl; lia).
  assert (∀ w0 args, returncode (git w0 args).1 = 0) as Hok
    by (intros w0 args; reflexivity).
  split; [exact HB|]. split; [exact Hok|].
  exact (proj1 (proj2 (successful_run_stages_every_path_once pairs_config
                         utf8_decode_ignore git ∅ HB Hok))).
Defined.
